(** * ajen-design: content model, presentation shell, gallery and draft editor

    A shallow embedding of the TypeScript sources
    - [types.ts]: the content model, and the [App] component (the
      presentation shell) that follows it in that file,
    - [components/ProjectDetail.tsx]: the gallery / slideshow,
    - [components/AdminControl.tsx]: the draft editor,
    and the statements of the specification that concern them.

    JavaScript numbers that are array indices, lengths or pixel coordinates
    are modelled as [Z] (they stay far below 2^53, where double arithmetic
    on integers is exact); [%] is the truncating remainder [Z.rem]; strings
    are [string] compared with [=] (JavaScript [===]); arrays are lists;
    [undefined] for an optional field is [None].  React state cells are
    record fields, a setter builds the next record, and a handler is a
    function from the state it closes over to the state it leaves. *)

From Stdlib Require Import Ascii String.
From stdpp Require Import base option list strings numbers pretty sorting.

Local Open Scope Z_scope.

(** ** Outcome of running a handler: it returns, or an exception escapes. *)

Inductive Completion (A : Type) : Type :=
| Returned (a : A)
| Thrown (message : string).
Arguments Returned {A} a.
Arguments Thrown {A} message.

(** JavaScript array read [l[i]]: [undefined] (here [None]) outside the array. *)
Definition array_get {A : Type} (l : list A) (i : Z) : option A :=
  if i <? 0 then None else l !! Z.to_nat i.

(** [l.length] *)
Definition array_length {A : Type} (l : list A) : Z := Z.of_nat (length l).

(** [l.findIndex(f)]: the first index whose element satisfies [f], else -1. *)
Fixpoint findIndex_from {A : Type} (f : A → bool) (k : Z) (l : list A) : Z :=
  match l with
  | [] => -1
  | x :: l' => if f x then k else findIndex_from f (k + 1) l'
  end.

Definition findIndex {A : Type} (f : A → bool) (l : list A) : Z :=
  findIndex_from f 0 l.

(** ** types.ts *)

(** [{ url: string; alt?: string }]; [toSlide] also reads an optional [type]. *)
Module ImageObject.
Record t : Type := mk {
  url : string;
  alt : option string;
  type : option string
}.
End ImageObject.

(** [type ProjectImage = string | { url: string; alt?: string }] *)
Inductive ProjectImage : Type :=
| ImageUrl (url : string)
| ImageObj (o : ImageObject.t).

Module Project.
Record t : Type := mk {
  id : string;
  title : string;
  category : string;
  thumbnail : string;
  description : string;
  images : list ProjectImage;
  year : string;
  client : option string
}.
End Project.

Module Exhibition.
Record t : Type := mk {
  id : string;
  title : string;
  date : string;
  location : string;
  link : option string
}.
End Exhibition.

Module SiteContent.
Record t : Type := mk {
  logoUrl : option string;
  heroLogoUrl : option string;
  projects : list Project.t;
  exhibitions : list Exhibition.t;
  contactEmail : string
}.
End SiteContent.

(** ** The [App] component: the presentation shell *)

Inductive Direction : Type := prev | next.

Module App.

(** The [useState] cells of [App]. *)
Record State : Type := mkState {
  content : option SiteContent.t;
  isAdmin : bool;
  activeCategory : string;
  selectedProjectId : option string;
  isLoading : bool;
  error : option string
}.

Definition setSelectedProjectId (v : option string) (s : State) : State :=
  {| content := content s; isAdmin := isAdmin s;
     activeCategory := activeCategory s; selectedProjectId := v;
     isLoading := isLoading s; error := error s |}.

Definition setActiveCategory (v : string) (s : State) : State :=
  {| content := content s; isAdmin := isAdmin s;
     activeCategory := v; selectedProjectId := selectedProjectId s;
     isLoading := isLoading s; error := error s |}.

Definition setContent (v : option SiteContent.t) (s : State) : State :=
  {| content := v; isAdmin := isAdmin s;
     activeCategory := activeCategory s;
     selectedProjectId := selectedProjectId s;
     isLoading := isLoading s; error := error s |}.

(** [filteredProjects] (useMemo over [content], [activeCategory]). *)
Definition filteredProjects_of (content : option SiteContent.t)
    (activeCategory : string) : list Project.t :=
  match content with
  | None => []
  | Some c =>
      if bool_decide (activeCategory = "all") then SiteContent.projects c
      else filter (λ p, Project.category p = activeCategory)
                  (SiteContent.projects c)
  end.

Definition filteredProjects (s : State) : list Project.t :=
  filteredProjects_of (content s) (activeCategory s).

(** [p.id === selectedProjectId], where [selectedProjectId] may be [null]. *)
Definition id_matches (selected : option string) (p : Project.t) : bool :=
  match selected with
  | None => false
  | Some i => bool_decide (Project.id p = i)
  end.

Definition selectedProjectIndex (s : State) : Z :=
  findIndex (id_matches (selectedProjectId s)) (filteredProjects s).

(** [filteredProjects[selectedProjectIndex]] *)
Definition selectedProject (s : State) : option Project.t :=
  array_get (filteredProjects s) (selectedProjectIndex s).

Definition handleNavigate (direction : Direction) (s : State)
    : Completion State :=
  if selectedProjectIndex s =? -1 then Returned s
  else
    let newIndex :=
      match direction with
      | next => selectedProjectIndex s + 1
      | prev => selectedProjectIndex s - 1
      end in
    let newIndex :=
      if newIndex >=? array_length (filteredProjects s) then 0
      else newIndex in
    let newIndex :=
      if newIndex <? 0 then array_length (filteredProjects s) - 1
      else newIndex in
    match array_get (filteredProjects s) newIndex with
    | Some p => Returned (setSelectedProjectId (Some (Project.id p)) s)
    | None => Thrown "TypeError: Cannot read properties of undefined"
    end.

Definition handleCloseModal (s : State) : State :=
  setSelectedProjectId None s.

(** [isModalOpen={!!selectedProjectId}]: the Header shows the project
    navigation when the selected identifier is a non-empty string. *)
Definition isModalOpen (s : State) : bool :=
  match selectedProjectId s with
  | Some (String _ _) => true
  | _ => false
  end.


(** *** Exhibitions, newest first *)

(** [Array.prototype.sort(cmp)] is stable, and with a comparator that is a
    consistent order its result is determined: the elements in ascending
    order of [cmp], equal ones in their original order.  Insertion from the
    right computes it.  With any other comparator the order is left to the
    engine, and this is one order it may give. *)
Fixpoint insert_by {A : Type} (cmp : A → A → Z) (x : A) (l : list A)
    : list A :=
  match l with
  | [] => [x]
  | y :: l' => if cmp x y <=? 0 then x :: l else y :: insert_by cmp x l'
  end.

Definition stable_sort {A : Type} (cmp : A → A → Z) (l : list A) : list A :=
  foldr (insert_by cmp) [] l.

Section SortedExhibitions.

(** [new Date(s).getTime()]: the platform's reading of a date string, in
    milliseconds; [None] is [NaN], the time of an invalid date. *)
Variable getTime : string → option Z.

(** [(a, b) => new Date(b.date).getTime() - new Date(a.date).getTime()];
    [None] is [NaN]. *)
Definition compare_dates (a b : Exhibition.t) : option Z :=
  match getTime (Exhibition.date b), getTime (Exhibition.date a) with
  | Some tb, Some ta => Some (tb - ta)
  | _, _ => None
  end.

(** [sort] reads a comparator result [NaN] as [+0]; the comparator is a
    consistent order when every date can be read. *)
Definition sort_compare (a b : Exhibition.t) : Z :=
  default 0 (compare_dates a b).

(** [a] is shown before [b] without being older: both dates are read, and
    the time of [b] is at most the time of [a]. *)
Definition not_older (a b : Exhibition.t) : Prop :=
  ∃ ta tb, getTime (Exhibition.date a) = Some ta
           ∧ getTime (Exhibition.date b) = Some tb ∧ tb ≤ ta.

(** [sortedExhibitions]: [[...content.exhibitions].sort(...)] *)
Definition sortedExhibitions_of (content : option SiteContent.t)
    : list Exhibition.t :=
  match content with
  | None => []
  | Some c => stable_sort sort_compare (SiteContent.exhibitions c)
  end.

End SortedExhibitions.

(** *** Loading the content *)




(** The state of the first render: the initial values of the [useState]
    cells. *)
Definition initial : State := mkState None false "all" None true None.



(** What [App] returns. *)
Inductive Screen : Type :=
| LoadingScreen
| ErrorScreen (text : string)
| SiteScreen (c : SiteContent.t).

(** [if (isLoading) ...; if (error || !content) ... {error || "Content
    configuration missing"} ...; return the site], for a content of the
    declared type. *)
Definition screen (s : State) : Screen :=
  if isLoading s then LoadingScreen
  else
    match error s, content s with
    | Some (String c e), _ => ErrorScreen (String c e)
    | _, None => ErrorScreen "Content configuration missing"
    | _, Some c => SiteScreen c
    end.

(** [document.body.style.overflow] as the scroll-lock effect leaves it. *)
Definition body_overflow (s : State) : string :=
  if isModalOpen s then "hidden" else "".

End App.

(** ** components/ProjectDetail.tsx: the gallery of one open project *)

Module ProjectDetail.

(** [type Slide = { url; alt?; type: 'image' | 'youtube' }]; [type] is kept
    as the string the code stores. *)
Record Slide : Type := mkSlide {
  url : string;
  alt : option string;
  type : string
}.

(** ASCII lower-casing: how the [i] flag of a non-unicode regular expression
    compares the ASCII letters of the pattern. *)
Definition ascii_lower (c : ascii) : ascii :=
  let n := nat_of_ascii c in
  if (65 <=? n)%nat && (n <=? 90)%nat then ascii_of_nat (n + 32) else c.

Fixpoint string_lower (s : string) : string :=
  match s with
  | EmptyString => EmptyString
  | String c s' => String (ascii_lower c) (string_lower s')
  end.

(** [needle] occurs somewhere in [s]. *)
Fixpoint contains (needle s : string) : bool :=
  String.prefix needle s ||
  match s with
  | EmptyString => false
  | String _ s' => contains needle s'
  end.

(** [/youtube\.com\/watch\?v=|youtu\.be\//i.test(url)] *)
Definition isYouTubeUrl (url : string) : bool :=
  contains "youtube.com/watch?v=" (string_lower url)
  || contains "youtu.be/" (string_lower url).

(** A non-empty string is truthy. *)
Definition truthy (s : option string) : bool :=
  match s with
  | Some (String _ _) => true
  | _ => false
  end.

Definition toSlide (img : ProjectImage) : Slide :=
  match img with
  | ImageUrl u =>
      {| url := u; alt := None;
         type := if isYouTubeUrl u then "youtube" else "image" |}
  | ImageObj o =>
      {| url := ImageObject.url o; alt := ImageObject.alt o;
         type := if truthy (ImageObject.type o)
                 then default "" (ImageObject.type o)
                 else if isYouTubeUrl (ImageObject.url o) then "youtube"
                 else "image" |}
  end.

(** [(project.images.length > 0 ? project.images : [project.thumbnail]).map(toSlide)] *)
Definition slides (project : Project.t) : list Slide :=
  toSlide <$>
    (if 0 <? array_length (Project.images project) then Project.images project
     else [ImageUrl (Project.thumbnail project)]).

(** The component instance: its [useState] cell and its three [useRef]s. *)
Record State : Type := mkState {
  currentSlide : Z;
  touchStartX : option Z;
  touchStartY : option Z;
  isSwiping : bool
}.

(** State of a freshly mounted instance: [useState(0)], [useRef(null)],
    [useRef(null)], [useRef(false)]. *)
Definition initial : State :=
  {| currentSlide := 0; touchStartX := None; touchStartY := None;
     isSwiping := false |}.

Definition setCurrentSlide (f : Z → Z) (s : State) : State :=
  {| currentSlide := f (currentSlide s); touchStartX := touchStartX s;
     touchStartY := touchStartY s; isSwiping := isSwiping s |}.

(** The updaters [(prev) => (prev + 1) % slides.length] and
    [(prev) => (prev - 1 + slides.length) % slides.length], as functions of
    [slides.length]. *)
Definition next_index (slides_length prev : Z) : Z :=
  Z.rem (prev + 1) slides_length.

Definition prev_index (slides_length prev : Z) : Z :=
  Z.rem (prev - 1 + slides_length) slides_length.

Definition nextSlide (project : Project.t) (s : State) : State :=
  setCurrentSlide (next_index (array_length (slides project))) s.

Definition prevSlide (project : Project.t) (s : State) : State :=
  setCurrentSlide (prev_index (array_length (slides project))) s.

(** A touch point: [clientX], [clientY]. *)
Record Touch : Type := mkTouch { clientX : Z; clientY : Z }.

(** Which of [nextSlide()] / [prevSlide()] a handler called. *)
Inductive SlideCall : Type := CallNextSlide | CallPrevSlide.

Definition handleTouchStart (touch : Touch) (s : State) : State :=
  {| currentSlide := currentSlide s;
     touchStartX := Some (clientX touch);
     touchStartY := Some (clientY touch);
     isSwiping := false |}.

Definition handleTouchMove (touch : Touch) (s : State) : State :=
  match touchStartX s, touchStartY s with
  | Some startX, Some startY =>
      let deltaX := clientX touch - startX in
      let deltaY := clientY touch - startY in
      if negb (isSwiping s) && (Z.abs deltaY <? Z.abs deltaX)
         && (10 <? Z.abs deltaX)
      then {| currentSlide := currentSlide s; touchStartX := touchStartX s;
              touchStartY := touchStartY s; isSwiping := true |}
      else s
  | _, _ => s
  end.

(** Returns the new state and the navigation calls made, in order. *)
Definition handleTouchEnd (project : Project.t) (touch : Touch) (s : State)
    : State * list SlideCall :=
  match touchStartX s, touchStartY s, isSwiping s with
  | Some startX, Some startY, true =>
      let deltaX := clientX touch - startX in
      let deltaY := clientY touch - startY in
      let '(s1, calls) :=
        if (Z.abs deltaY <? Z.abs deltaX) && (40 <? Z.abs deltaX) then
          if deltaX <? 0 then (nextSlide project s, [CallNextSlide])
          else (prevSlide project s, [CallPrevSlide])
        else (s, []) in
      ({| currentSlide := currentSlide s1; touchStartX := None;
          touchStartY := None; isSwiping := false |}, calls)
  | _, _, _ => (s, [])
  end.

(** The pixel thresholds of [handleTouchMove] and [handleTouchEnd]. *)
Definition dead_zone : Z := 10.
Definition commit_threshold : Z := 40.

(** The test by which [handleTouchMove] enters swipe mode, for a move point
    [m] of a sequence that started at [start]. *)
Definition horizontal_intent (start m : Touch) : bool :=
  let deltaX := clientX m - clientX start in
  let deltaY := clientY m - clientY start in
  (Z.abs deltaY <? Z.abs deltaX) && (dead_zone <? Z.abs deltaX).

(** One touch sequence: [touchstart], the [touchmove]s, [touchend]. *)
Definition touch_sequence (project : Project.t) (start : Touch)
    (moves : list Touch) (release : Touch) (s : State)
    : State * list SlideCall :=
  handleTouchEnd project release
    (foldl (λ s m, handleTouchMove m s) (handleTouchStart start s) moves).

(** [slides[currentSlide]], read by the render; [undefined] is [None], and the
    render then throws on [.type]. *)
Definition current_slide (project : Project.t) (s : State) : option Slide :=
  array_get (slides project) (currentSlide s).


(** *** The embed address of a video slide *)

(** [[a-zA-Z0-9_-]] *)
Definition is_id_char (c : ascii) : bool :=
  let n := nat_of_ascii c in
  ((97 <=? n)%nat && (n <=? 122)%nat)
  || ((65 <=? n)%nat && (n <=? 90)%nat)
  || ((48 <=? n)%nat && (n <=? 57)%nat)
  || (n =? 95)%nat || (n =? 45)%nat.

(** [[a-zA-Z0-9_-]{k}] at the head of [s]: the [k] characters matched. *)
Fixpoint take_id (k : nat) (s : string) : option string :=
  match k with
  | O => Some EmptyString
  | S k' =>
      match s with
      | String c s' =>
          if is_id_char c then String c <$> take_id k' s' else None
      | EmptyString => None
      end
  end.

(** Eleven characters of [[a-zA-Z0-9_-]]. *)
Definition is_video_id (s : string) : bool :=
  (String.length s =? 11)%nat && forallb is_id_char (list_ascii_of_string s).

(** [s] without its prefix [p], when it has that prefix. *)
Fixpoint after_prefix (p s : string) : option string :=
  match p, s with
  | EmptyString, _ => Some s
  | String a p', String b s' =>
      if Ascii.eqb a b then after_prefix p' s' else None
  | String _ _, EmptyString => None
  end.

(** What the pattern asks for before the identifier: [v=] or [youtu.be/]. *)
Definition id_marker (m : string) : Prop := m = "v=" ∨ m = "youtu.be/".

(** A match of [(?:v=|youtu\.be\/)([a-zA-Z0-9_-]{11})] that starts at the
    head of [s]: its group 1.  The alternatives are tried in order. *)
Definition match_id_here (s : string) : option string :=
  match after_prefix "v=" s ≫= take_id 11 with
  | Some id => Some id
  | None => after_prefix "youtu.be/" s ≫= take_id 11
  end.

(** [url.match(...)]: the match that starts leftmost. *)
Fixpoint match_id (s : string) : option string :=
  match match_id_here s with
  | Some id => Some id
  | None =>
      match s with
      | EmptyString => None
      | String _ s' => match_id s'
      end
  end.

Definition getYouTubeEmbedUrl (url : string) : option string :=
  (λ id, "https://www.youtube.com/embed/" +:+ id) <$> match_id url.

(** What the slide area renders. *)
Inductive Media : Type :=
| Iframe (src title : string)
| Img (src alt : string).

(** [a || b] on strings, [a] possibly [undefined]. *)
Definition or_else (a : option string) (b : string) : string :=
  match a with
  | Some (String c a') => String c a'
  | _ => b
  end.

(** The slide area of the render, for the slide read at [currentSlide]. *)
Definition render_slide (slide : Slide) (currentSlide : Z) : Media :=
  if bool_decide (type slide = "youtube") then
    Iframe (or_else (getYouTubeEmbedUrl (url slide)) (url slide))
      (or_else (alt slide) ("YouTube video " +:+ pretty (currentSlide + 1)))
  else
    Img (url slide)
      (or_else (alt slide) ("Slide " +:+ pretty (currentSlide + 1))).

End ProjectDetail.

(** ** JSON values and [JSON.parse]

    [JSON.parse] is the platform's parser, not code of this repository.  The
    handlers below take it as a parameter; [JSON.parse] here is an executable
    model of it (RFC 8259 grammar) on which they can be run.  Text is a
    sequence of UTF-8 bytes; a number is kept as the literal that was read; a
    [\uXXXX] escape is stored as the UTF-8 bytes of that code unit. *)

Module JSON.

#[local] Unset Elimination Schemes.
Inductive value : Type :=
| JNull
| JBool (b : bool)
| JNumber (literal : string)
| JString (s : string)
| JArray (items : list value)
| JObject (members : list (string * value)).
#[local] Set Elimination Schemes.

Definition is_ws (c : ascii) : bool :=
  match nat_of_ascii c with
  | 32%nat | 9%nat | 10%nat | 13%nat => true
  | _ => false
  end.

Fixpoint skip_ws (s : string) : string :=
  match s with
  | String c s' => if is_ws c then skip_ws s' else s
  | EmptyString => s
  end.

Fixpoint strip_prefix (p s : string) : option string :=
  match p, s with
  | EmptyString, _ => Some s
  | String a p', String b s' =>
      if Ascii.eqb a b then strip_prefix p' s' else None
  | String _ _, EmptyString => None
  end.

Definition is_digit (c : ascii) : bool :=
  (48 <=? nat_of_ascii c)%nat && (nat_of_ascii c <=? 57)%nat.

(** The longest prefix of digits, and the rest. *)
Fixpoint take_digits (s : string) : string * string :=
  match s with
  | String c s' =>
      if is_digit c then
        let '(ds, r) := take_digits s' in (String c ds, r)
      else (EmptyString, s)
  | EmptyString => (EmptyString, EmptyString)
  end.

(** [int = "0" / digit1-9 *DIGIT] *)
Definition parse_int (s : string) : option (string * string) :=
  match take_digits s with
  | (EmptyString, _) => None
  | (String "0" EmptyString, r) => Some ("0", r)
  | (String "0" (String _ _), _) => None
  | (ds, r) => Some (ds, r)
  end.

(** [frac = "." 1*DIGIT], optional *)
Definition parse_frac (s : string) : option (string * string) :=
  match s with
  | String "." s' =>
      match take_digits s' with
      | (EmptyString, _) => None
      | (ds, r) => Some (String "." ds, r)
      end
  | _ => Some (EmptyString, s)
  end.

(** [exp = ("e" / "E") ["-" / "+"] 1*DIGIT], optional *)
Definition parse_exp (s : string) : option (string * string) :=
  let digits (mark : string) (s' : string) :=
    match take_digits s' with
    | (EmptyString, _) => None
    | (ds, r) => Some (mark +:+ ds, r)
    end in
  match s with
  | String "e" (String "+" s') => digits "e+" s'
  | String "e" (String "-" s') => digits "e-" s'
  | String "e" s' => digits "e" s'
  | String "E" (String "+" s') => digits "E+" s'
  | String "E" (String "-" s') => digits "E-" s'
  | String "E" s' => digits "E" s'
  | _ => Some (EmptyString, s)
  end.

Definition parse_number (s : string) : option (value * string) :=
  let '(sign, s0) :=
    match s with
    | String "-" s' => ("-", s')
    | _ => (EmptyString, s)
    end in
  '(i, s1) ← parse_int s0;
  '(f, s2) ← parse_frac s1;
  '(e, s3) ← parse_exp s2;
  Some (JNumber (sign +:+ i +:+ f +:+ e), s3).

Definition hex_digit (c : ascii) : option nat :=
  let n := nat_of_ascii c in
  if (48 <=? n)%nat && (n <=? 57)%nat then Some (n - 48)%nat
  else if (65 <=? n)%nat && (n <=? 70)%nat then Some (n - 55)%nat
  else if (97 <=? n)%nat && (n <=? 102)%nat then Some (n - 87)%nat
  else None.

(** UTF-8 bytes of a 16-bit code unit. *)
Definition utf8 (n : nat) : string :=
  if (n <? 128)%nat then String (ascii_of_nat n) EmptyString
  else if (n <? 2048)%nat then
    String (ascii_of_nat (192 + n / 64))
      (String (ascii_of_nat (128 + n mod 64)) EmptyString)
  else
    String (ascii_of_nat (224 + n / 4096))
      (String (ascii_of_nat (128 + (n / 64) mod 64))
        (String (ascii_of_nat (128 + n mod 64)) EmptyString)).

(** The double quote and the backslash, by their codes. *)
Definition quote : ascii := ascii_of_nat 34.
Definition backslash : ascii := ascii_of_nat 92.

(** The characters of a string after its opening quote, up to and including
    the closing quote. *)
Fixpoint parse_chars (s : string) : option (string * string) :=
  match s with
  | EmptyString => None
  | String c s' =>
      if Ascii.eqb c quote then Some (EmptyString, s')
      else if Ascii.eqb c backslash then
        match s' with
        | String "u" (String h1 (String h2 (String h3 (String h4 s'')))) =>
            a ← hex_digit h1; b ← hex_digit h2;
            c ← hex_digit h3; d ← hex_digit h4;
            '(cs, r) ← parse_chars s'';
            Some (utf8 (((a * 16 + b) * 16 + c) * 16 + d) +:+ cs, r)
        | String e s'' =>
            decoded ←
              (if Ascii.eqb e quote then Some quote
               else if Ascii.eqb e backslash then Some backslash
               else match e with
                    | "/" => Some "/"
                    | "b" => Some (ascii_of_nat 8)
                    | "f" => Some (ascii_of_nat 12)
                    | "n" => Some (ascii_of_nat 10)
                    | "r" => Some (ascii_of_nat 13)
                    | "t" => Some (ascii_of_nat 9)
                    | _ => None
                    end)%char;
            '(cs, r) ← parse_chars s'';
            Some (String decoded cs, r)
        | EmptyString => None
        end
      else if (nat_of_ascii c <? 32)%nat then None
      else '(cs, r) ← parse_chars s'; Some (String c cs, r)
  end.

Fixpoint parse_value (fuel : nat) (s : string) : option (value * string) :=
  match fuel with
  | O => None
  | S fuel' =>
      match skip_ws s with
      | String "n" _ => r ← strip_prefix "null" (skip_ws s); Some (JNull, r)
      | String "t" _ =>
          r ← strip_prefix "true" (skip_ws s); Some (JBool true, r)
      | String "f" _ =>
          r ← strip_prefix "false" (skip_ws s); Some (JBool false, r)
      | String "[" s' =>
          match skip_ws s' with
          | String "]" r => Some (JArray [], r)
          | _ => '(vs, r) ← parse_elements fuel' s'; Some (JArray vs, r)
          end
      | String "{" s' =>
          match skip_ws s' with
          | String "}" r => Some (JObject [], r)
          | _ => '(ms, r) ← parse_members fuel' s'; Some (JObject ms, r)
          end
      | String c s' =>
          if Ascii.eqb c quote then
            '(cs, r) ← parse_chars s'; Some (JString cs, r)
          else parse_number (skip_ws s)
      | EmptyString => None
      end
  end
with parse_elements (fuel : nat) (s : string) : option (list value * string) :=
  match fuel with
  | O => None
  | S fuel' =>
      '(v, r) ← parse_value fuel' s;
      match skip_ws r with
      | String "," r' => '(vs, r'') ← parse_elements fuel' r'; Some (v :: vs, r'')
      | String "]" r' => Some ([v], r')
      | _ => None
      end
  end
with parse_members (fuel : nat) (s : string)
    : option (list (string * value) * string) :=
  match fuel with
  | O => None
  | S fuel' =>
      match skip_ws s with
      | String c s' =>
          if Ascii.eqb c quote then
            '(k, r) ← parse_chars s';
            match skip_ws r with
            | String ":" r' =>
                '(v, r'') ← parse_value fuel' r';
                match skip_ws r'' with
                | String "," r3 =>
                    '(ms, r4) ← parse_members fuel' r3; Some ((k, v) :: ms, r4)
                | String "}" r3 => Some ([(k, v)], r3)
                | _ => None
                end
            | _ => None
            end
          else None
      | EmptyString => None
      end
  end.

(** [JSON.parse(text)]: the value, or a [SyntaxError] is thrown.  The fuel
    bounds the chain of nested calls; of two consecutive calls in such a
    chain at least one has read a character, hence two units per character
    of the text. *)
Definition parse (text : string) : Completion value :=
  match parse_value (2 * String.length text + 2) text with
  | Some (v, r) =>
      match skip_ws r with
      | EmptyString => Returned v
      | _ => Thrown "SyntaxError"
      end
  | None => Thrown "SyntaxError"
  end.

End JSON.

(** ** Run-time values of a state cell declared [SiteContent]

    [JSON.parse] returns [any], and [setDraftContent(parsed)] stores it with
    no validation.  A cell declared [SiteContent] therefore holds either a
    value of that shape, or some other JSON value. *)

Module Dynamic.

(** [JSON.parse] keeps the last of several members with one key. *)
Definition member (k : string) (ms : list (string * JSON.value))
    : option JSON.value :=
  foldl (λ found kv, if bool_decide (kv.1 = k) then Some kv.2 else found)
        None ms.

Definition string_member (k : string) (ms : list (string * JSON.value))
    : option string :=
  match member k ms with
  | Some (JSON.JString s) => Some s
  | _ => None
  end.

(** An optional string field: absent, or a string. *)
Definition optional_member (k : string) (ms : list (string * JSON.value))
    : option (option string) :=
  match member k ms with
  | None => Some None
  | Some (JSON.JString s) => Some (Some s)
  | Some _ => None
  end.

Definition array_member {A : Type} (read : JSON.value → option A)
    (k : string) (ms : list (string * JSON.value)) : option (list A) :=
  match member k ms with
  | Some (JSON.JArray items) => mapM read items
  | _ => None
  end.

Definition only_members (allowed : list string)
    (ms : list (string * JSON.value)) : bool :=
  forallb (λ kv, bool_decide (kv.1 ∈ allowed)) ms.

Definition image (j : JSON.value) : option ProjectImage :=
  match j with
  | JSON.JString s => Some (ImageUrl s)
  | JSON.JObject ms =>
      if only_members ["url"; "alt"; "type"] ms then
        url ← string_member "url" ms;
        alt ← optional_member "alt" ms;
        type ← optional_member "type" ms;
        Some (ImageObj (ImageObject.mk url alt type))
      else None
  | _ => None
  end.

Definition project (j : JSON.value) : option Project.t :=
  match j with
  | JSON.JObject ms =>
      if only_members ["id"; "title"; "category"; "thumbnail"; "description";
                       "images"; "year"; "client"] ms then
        id ← string_member "id" ms;
        title ← string_member "title" ms;
        category ← string_member "category" ms;
        thumbnail ← string_member "thumbnail" ms;
        description ← string_member "description" ms;
        images ← array_member image "images" ms;
        year ← string_member "year" ms;
        client ← optional_member "client" ms;
        Some (Project.mk id title category thumbnail description images year
                client)
      else None
  | _ => None
  end.

Definition exhibition (j : JSON.value) : option Exhibition.t :=
  match j with
  | JSON.JObject ms =>
      if only_members ["id"; "title"; "date"; "location"; "link"] ms then
        id ← string_member "id" ms;
        title ← string_member "title" ms;
        date ← string_member "date" ms;
        location ← string_member "location" ms;
        link ← optional_member "link" ms;
        Some (Exhibition.mk id title date location link)
      else None
  | _ => None
  end.

Definition site_content (j : JSON.value) : option SiteContent.t :=
  match j with
  | JSON.JObject ms =>
      if only_members ["logoUrl"; "heroLogoUrl"; "projects"; "exhibitions";
                       "contactEmail"] ms then
        logoUrl ← optional_member "logoUrl" ms;
        heroLogoUrl ← optional_member "heroLogoUrl" ms;
        projects ← array_member project "projects" ms;
        exhibitions ← array_member exhibition "exhibitions" ms;
        contactEmail ← string_member "contactEmail" ms;
        Some (SiteContent.mk logoUrl heroLogoUrl projects exhibitions
                contactEmail)
      else None
  | _ => None
  end.

(** What a [SiteContent] cell holds. *)
Inductive t : Type :=
| Shaped (c : SiteContent.t)
| Unshaped (j : JSON.value).

(** A parsed value, as the cell that receives it holds it. *)
Definition of_JSON (j : JSON.value) : t :=
  match site_content j with
  | Some c => Shaped c
  | None => Unshaped j
  end.

(** [content.projects] is an array, for a [content] that is an object. *)
Definition projects_is_array (j : JSON.value) : bool :=
  match j with
  | JSON.JObject ms =>
      match member "projects" ms with
      | Some (JSON.JArray _) => true
      | _ => false
      end
  | _ => false
  end.

End Dynamic.

(** ** [App]: loading the content, and the render that follows

    [response.json()] returns [any], and [setContent(data)] stores it with no
    validation: the [content] cell, declared [SiteContent | null], holds
    whatever JSON value the body was. *)

Module Loading.


(** The cells of [App] after [loadContent].  [Declared s]: every cell holds
    a value of its declared type, and [s] is the state.  [Undeclared data s]:
    the [content] cell holds [data], a JSON value that is neither [null] nor
    of the shape [SiteContent]; the other cells are those of [s]. *)
Inductive Loaded : Type :=
| Declared (s : App.State)
| Undeclared (data : JSON.value) (s : App.State).



(** The render of [App] on these cells: what it returns, or the [TypeError]
    that escapes it; [None] where this development does not follow it.

    The hooks run before the screens are chosen.  On a falsy [content] they
    return their defaults, and [!content] selects the error screen.  On a
    truthy [content] the [categories] hook calls [content.projects.map]: it
    throws unless [content.projects] is an array (a JSON value has no
    function for a member).  The truth value of a number depends on its
    value as a double and is not decided here; a content with an array of
    projects that lacks the declared shape elsewhere is not followed. *)
Definition render (l : Loaded) : option (Completion App.Screen) :=
  match l with
  | Declared s => Some (Returned (App.screen s))
  | Undeclared data s =>
      match data with
      | JSON.JNull | JSON.JBool false | JSON.JString EmptyString =>
          Some (Returned (App.screen (App.setContent None s)))
      | JSON.JNumber _ => None
      | _ =>
          if Dynamic.projects_is_array data then None
          else Some (Thrown "TypeError")
      end
  end.

End Loading.

(** ** components/AdminControl.tsx: the draft editor *)

Module AdminControl.

Inductive Tab : Type := tab_projects | tab_exhibitions | tab_settings.

Inductive MoveDirection : Type := up | down.

(** *** JavaScript arrays whose slots may hold [undefined] *)

(** [a[i]] *)
Definition js_read {A : Type} (a : list (option A)) (i : Z) : option A :=
  mjoin (array_get a i).

(** [a[i] = v]: inside the array the slot is replaced; past its end the array
    grows, the slots in between staying empty; a negative [i] names a
    property, and no slot changes. *)
Definition js_write {A : Type} (a : list (option A)) (i : Z) (v : option A)
    : list (option A) :=
  if i <? 0 then a
  else if i <? array_length a then <[Z.to_nat i := v]> a
  else a ++ replicate (Z.to_nat (i - array_length a)) None ++ [v].

(** The array as a list of defined elements, when every slot is defined. *)
Fixpoint all_defined {A : Type} (a : list (option A)) : option (list A) :=
  match a with
  | [] => Some []
  | Some x :: a' => cons x <$> all_defined a'
  | None :: _ => None
  end.

(** *** What a handler does with the draft

    - [NoCall]: it returns without calling [setDraftContent];
    - [SetDraftContent d]: it calls [setDraftContent(d)];
    - [SetUndefinedSlots projects]: it calls [setDraftContent] with a draft
      whose projects array has [undefined] slots, which is no [Project[]];
    - [Raised message]: a [TypeError] escapes it. *)

Inductive Update : Type :=
| NoCall
| SetDraftContent (d : SiteContent.t)
| SetUndefinedSlots (projects : list (option Project.t))
| Raised (message : string).

(** [{ ...draftContent, projects: v }] and its siblings. *)
Definition with_projects (v : list Project.t) (d : SiteContent.t)
    : SiteContent.t :=
  SiteContent.mk (SiteContent.logoUrl d) (SiteContent.heroLogoUrl d) v
    (SiteContent.exhibitions d) (SiteContent.contactEmail d).

Definition with_exhibitions (v : list Exhibition.t) (d : SiteContent.t)
    : SiteContent.t :=
  SiteContent.mk (SiteContent.logoUrl d) (SiteContent.heroLogoUrl d)
    (SiteContent.projects d) v (SiteContent.contactEmail d).

Definition with_logoUrl (v : string) (d : SiteContent.t) : SiteContent.t :=
  SiteContent.mk (Some v) (SiteContent.heroLogoUrl d)
    (SiteContent.projects d) (SiteContent.exhibitions d)
    (SiteContent.contactEmail d).

Definition with_heroLogoUrl (v : string) (d : SiteContent.t) : SiteContent.t :=
  SiteContent.mk (SiteContent.logoUrl d) (Some v)
    (SiteContent.projects d) (SiteContent.exhibitions d)
    (SiteContent.contactEmail d).

Definition with_contactEmail (v : string) (d : SiteContent.t)
    : SiteContent.t :=
  SiteContent.mk (SiteContent.logoUrl d) (SiteContent.heroLogoUrl d)
    (SiteContent.projects d) (SiteContent.exhibitions d) v.

(** *** Projects *)

(** A [field: keyof Project] together with a [value] of that field's type. *)
Inductive ProjectField : Type :=
| field_id (value : string)
| field_title (value : string)
| field_category (value : string)
| field_thumbnail (value : string)
| field_description (value : string)
| field_images (value : list ProjectImage)
| field_year (value : string)
| field_client (value : option string).

(** [{ ...p, [field]: value }] *)
Definition set_project_field (f : ProjectField) (p : Project.t) : Project.t :=
  let '(Project.mk id title category thumbnail description images year client)
    := p in
  match f with
  | field_id v =>
      Project.mk v title category thumbnail description images year client
  | field_title v =>
      Project.mk id v category thumbnail description images year client
  | field_category v =>
      Project.mk id title v thumbnail description images year client
  | field_thumbnail v =>
      Project.mk id title category v description images year client
  | field_description v =>
      Project.mk id title category thumbnail v images year client
  | field_images v =>
      Project.mk id title category thumbnail description v year client
  | field_year v =>
      Project.mk id title category thumbnail description images v client
  | field_client v =>
      Project.mk id title category thumbnail description images year v
  end.

Definition updateProject (id : string) (f : ProjectField) (d : SiteContent.t)
    : SiteContent.t :=
  let updatedProjects :=
    (λ p, if bool_decide (Project.id p = id) then set_project_field f p
          else p) <$> SiteContent.projects d in
  with_projects updatedProjects d.

(** [now] is [Date.now()], [fullYear] is [new Date().getFullYear()]; an
    integer's [toString()] is its decimal rendering. *)
Definition addProject (now fullYear : Z) (d : SiteContent.t) : SiteContent.t :=
  let newProject :=
    Project.mk (pretty now) "New Project" "print"
      "https://picsum.photos/800/800" "Project description goes here."
      [] (pretty fullYear) None in
  with_projects (newProject :: SiteContent.projects d) d.

(** [confirmed] is the answer to [confirm("Delete this project?")]. *)
Definition deleteProject (confirmed : bool) (id : string) (d : SiteContent.t)
    : Update :=
  if confirmed then
    SetDraftContent
      (with_projects
         (filter (λ p, Project.id p ≠ id) (SiteContent.projects d)) d)
  else NoCall.

Definition moveProject (index : Z) (direction : MoveDirection)
    (d : SiteContent.t) : Update :=
  if match direction with
     | up => index =? 0
     | down => index =? array_length (SiteContent.projects d) - 1
     end
  then NoCall
  else
    let newProjects := Some <$> SiteContent.projects d in
    let targetIndex :=
      match direction with
      | up => index - 1
      | down => index + 1
      end in
    let at_target := js_read newProjects targetIndex in
    let at_index := js_read newProjects index in
    let newProjects := js_write newProjects index at_target in
    let newProjects := js_write newProjects targetIndex at_index in
    match all_defined newProjects with
    | Some ps => SetDraftContent (with_projects ps d)
    | None => SetUndefinedSlots newProjects
    end.

(** *** Gallery images of a project card (inline handlers of the render) *)

Definition image_url (img : ProjectImage) : string :=
  match img with
  | ImageUrl s => s
  | ImageObj o => ImageObject.url o
  end.

(** [typeof img === 'string' ? '' : img.alt] *)
Definition image_alt (img : ProjectImage) : option string :=
  match img with
  | ImageUrl _ => Some ""
  | ImageObj o => ImageObject.alt o
  end.

(** The URL input's [onChange] of image [idx] of the card of [project]. *)
Definition changeImageUrl (project : Project.t) (idx : nat) (value : string)
    (d : SiteContent.t) : Update :=
  match Project.images project !! idx with
  | Some img =>
      let newImages :=
        <[idx := ImageObj (ImageObject.mk value (image_alt img) None)]>
          (Project.images project) in
      SetDraftContent
        (updateProject (Project.id project) (field_images newImages) d)
  | None => Raised "TypeError: Cannot read properties of undefined"
  end.

(** The alt-text input's [onChange]. *)
Definition changeImageAlt (project : Project.t) (idx : nat) (value : string)
    (d : SiteContent.t) : Update :=
  match Project.images project !! idx with
  | Some img =>
      let newImages :=
        <[idx := ImageObj (ImageObject.mk (image_url img) (Some value) None)]>
          (Project.images project) in
      SetDraftContent
        (updateProject (Project.id project) (field_images newImages) d)
  | None => Raised "TypeError: Cannot read properties of undefined"
  end.

(** [project.images.filter((_, i) => i !== idx)] *)
Definition removeImage (project : Project.t) (idx : nat) (d : SiteContent.t)
    : SiteContent.t :=
  updateProject (Project.id project)
    (field_images (delete idx (Project.images project))) d.

(** [[...project.images, { url: '', alt: '' }]] *)
Definition addImage (project : Project.t) (d : SiteContent.t)
    : SiteContent.t :=
  updateProject (Project.id project)
    (field_images
       (Project.images project ++ [ImageObj (ImageObject.mk "" (Some "") None)]))
    d.

(** *** Exhibitions *)

Inductive ExhibitionField : Type :=
| ex_id (value : string)
| ex_title (value : string)
| ex_date (value : string)
| ex_location (value : string)
| ex_link (value : option string).

Definition set_exhibition_field (f : ExhibitionField) (e : Exhibition.t)
    : Exhibition.t :=
  let '(Exhibition.mk id title date location link) := e in
  match f with
  | ex_id v => Exhibition.mk v title date location link
  | ex_title v => Exhibition.mk id v date location link
  | ex_date v => Exhibition.mk id title v location link
  | ex_location v => Exhibition.mk id title date v link
  | ex_link v => Exhibition.mk id title date location v
  end.

Definition updateExhibition (id : string) (f : ExhibitionField)
    (d : SiteContent.t) : SiteContent.t :=
  let updatedExhibitions :=
    (λ e, if bool_decide (Exhibition.id e = id) then set_exhibition_field f e
          else e) <$> SiteContent.exhibitions d in
  with_exhibitions updatedExhibitions d.

(** [iso.split('T')[0]] *)
Fixpoint before_T (iso : string) : string :=
  match iso with
  | EmptyString => EmptyString
  | String "T" _ => EmptyString
  | String c s => String c (before_T s)
  end.

(** [now] is [Date.now()], [iso] is [new Date().toISOString()]. *)
Definition addExhibition (now : Z) (iso : string) (d : SiteContent.t)
    : SiteContent.t :=
  let newEx :=
    Exhibition.mk (pretty now) "New Exhibition" (before_T iso) "Location"
      None in
  with_exhibitions (newEx :: SiteContent.exhibitions d) d.

Definition deleteExhibition (confirmed : bool) (id : string)
    (d : SiteContent.t) : Update :=
  if confirmed then
    SetDraftContent
      (with_exhibitions
         (filter (λ e, Exhibition.id e ≠ id) (SiteContent.exhibitions d)) d)
  else NoCall.

(** *** The component and the [content] it is given

    [content] is the state cell of [App] passed down as a prop, and
    [onUpdate] is its setter; the other fields are the [useState] cells of
    [AdminControl].  [alerts] records the calls of [window.alert]. *)

Record State : Type := mkState {
  content : Dynamic.t;
  isOpen : bool;
  activeTab : Tab;
  draftContent : Dynamic.t;
  alerts : list string
}.

Definition setDraftContent (v : Dynamic.t) (s : State) : State :=
  {| content := content s; isOpen := isOpen s; activeTab := activeTab s;
     draftContent := v; alerts := alerts s |}.

Definition setIsOpen (v : bool) (s : State) : State :=
  {| content := content s; isOpen := v; activeTab := activeTab s;
     draftContent := draftContent s; alerts := alerts s |}.

Definition setActiveTab (v : Tab) (s : State) : State :=
  {| content := content s; isOpen := isOpen s; activeTab := v;
     draftContent := draftContent s; alerts := alerts s |}.

Definition onUpdate (v : Dynamic.t) (s : State) : State :=
  {| content := v; isOpen := isOpen s; activeTab := activeTab s;
     draftContent := draftContent s; alerts := alerts s |}.

Definition alert (message : string) (s : State) : State :=
  {| content := content s; isOpen := isOpen s; activeTab := activeTab s;
     draftContent := draftContent s; alerts := alerts s ++ [message] |}.

Definition handleClose (s : State) : State :=
  setIsOpen false (onUpdate (draftContent s) s).

(** The tabs' buttons, the inputs and the file reader, as events. A card is
    named by its position in the rendered list. *)
Inductive Event : Type :=
| ClickOpen
| ClickClose
| ClickTab (tab : Tab)
| ClickExport
| FileLoaded (result : string)
| ChangeLogoUrl (value : string)
| ChangeHeroLogoUrl (value : string)
| ChangeContactEmail (value : string)
| ClickAddProject (now fullYear : Z)
| ChangeProject (card : nat) (f : ProjectField)
| ClickMoveProject (card : nat) (direction : MoveDirection)
| ClickDeleteProject (card : nat) (confirmed : bool)
| ChangeImageUrl (card idx : nat) (value : string)
| ChangeImageAlt (card idx : nat) (value : string)
| ClickRemoveImage (card idx : nat)
| ClickAddImage (card : nat)
| ClickAddExhibition (now : Z) (iso : string)
| ChangeExhibition (card : nat) (f : ExhibitionField)
| ClickDeleteExhibition (card : nat) (confirmed : bool).

(** The inputs of a project card: title, category, year, client, description
    and thumbnail. *)
Definition project_input (f : ProjectField) : bool :=
  match f with
  | field_id _ | field_images _ => false
  | _ => true
  end.

(** The inputs of an exhibition card: title, date, location and link. *)
Definition exhibition_input (f : ExhibitionField) : bool :=
  match f with
  | ex_id _ => false
  | _ => true
  end.

(** The tab whose panel holds the control of an editing event. *)
Definition tab_of (ev : Event) : option Tab :=
  match ev with
  | ChangeLogoUrl _ | ChangeHeroLogoUrl _ | ChangeContactEmail _ =>
      Some tab_settings
  | ClickAddProject _ _ | ChangeProject _ _ | ClickMoveProject _ _
  | ClickDeleteProject _ _ | ChangeImageUrl _ _ _ | ChangeImageAlt _ _ _
  | ClickRemoveImage _ _ | ClickAddImage _ => Some tab_projects
  | ClickAddExhibition _ _ | ChangeExhibition _ _
  | ClickDeleteExhibition _ _ => Some tab_exhibitions
  | _ => None
  end.

Definition Tab_eqb (a b : Tab) : bool :=
  match a, b with
  | tab_projects, tab_projects | tab_exhibitions, tab_exhibitions
  | tab_settings, tab_settings => true
  | _, _ => false
  end.

(** The handler an editing event runs on a draft of the declared shape.  A
    control of a card exists only if the card is rendered. *)
Definition edit (ev : Event) (d : SiteContent.t) : Update :=
  let on_project (card : nat) (k : Project.t → Update) :=
    match SiteContent.projects d !! card with
    | Some p => k p
    | None => NoCall
    end in
  let on_exhibition (card : nat) (k : Exhibition.t → Update) :=
    match SiteContent.exhibitions d !! card with
    | Some e => k e
    | None => NoCall
    end in
  match ev with
  | ChangeLogoUrl v => SetDraftContent (with_logoUrl v d)
  | ChangeHeroLogoUrl v => SetDraftContent (with_heroLogoUrl v d)
  | ChangeContactEmail v => SetDraftContent (with_contactEmail v d)
  | ClickAddProject now fullYear => SetDraftContent (addProject now fullYear d)
  | ChangeProject card f =>
      on_project card (λ p,
        if project_input f
        then SetDraftContent (updateProject (Project.id p) f d)
        else NoCall)
  | ClickMoveProject card direction =>
      on_project card (λ _, moveProject (Z.of_nat card) direction d)
  | ClickDeleteProject card confirmed =>
      on_project card (λ p, deleteProject confirmed (Project.id p) d)
  | ChangeImageUrl card idx v =>
      on_project card (λ p,
        if bool_decide (is_Some (Project.images p !! idx))
        then changeImageUrl p idx v d else NoCall)
  | ChangeImageAlt card idx v =>
      on_project card (λ p,
        if bool_decide (is_Some (Project.images p !! idx))
        then changeImageAlt p idx v d else NoCall)
  | ClickRemoveImage card idx =>
      on_project card (λ p,
        if bool_decide (is_Some (Project.images p !! idx))
        then SetDraftContent (removeImage p idx d) else NoCall)
  | ClickAddImage card =>
      on_project card (λ p, SetDraftContent (addImage p d))
  | ClickAddExhibition now iso => SetDraftContent (addExhibition now iso d)
  | ChangeExhibition card f =>
      on_exhibition card (λ e,
        if exhibition_input f
        then SetDraftContent (updateExhibition (Exhibition.id e) f d)
        else NoCall)
  | ClickDeleteExhibition card confirmed =>
      on_exhibition card (λ e, deleteExhibition confirmed (Exhibition.id e) d)
  | _ => NoCall
  end.

Section Component.

(** The platform's [JSON.parse]. *)
Variable JSON_parse : string → Completion JSON.value.

(** [JSON.parse(JSON.stringify(j))] of a value that lacks the declared shape,
    as the platform computes it.  It need not be [j]: a number beyond the
    range of a double was read as [Infinity], is written as [null] and comes
    back as [null]. *)
Variable JSON_copy : JSON.value → JSON.value.

(** [JSON.parse(JSON.stringify(content))].  A value of the declared shape
    consists of strings, arrays and objects whose optional members are
    strings or absent.  [JSON.stringify] writes each of them and [JSON.parse]
    reads the same value back (a member that is [undefined] is left out and
    reads as [undefined] again), so the copy is an equal value that shares
    nothing with [content].  A value of another shape goes through
    [JSON_copy] and is stored as it comes back. *)
Definition deep_copy (c : Dynamic.t) : Dynamic.t :=
  match c with
  | Dynamic.Shaped c => Dynamic.Shaped c
  | Dynamic.Unshaped j => Dynamic.of_JSON (JSON_copy j)
  end.

Definition handleOpen (s : State) : State :=
  setIsOpen true (setDraftContent (deep_copy (content s)) s).

(** What an editing handler leaves in the draft when the draft does not have
    the declared shape.  Each handler either throws, or ends in one call of
    [setDraftContent] and writes nothing else; its outcome on such a draft is
    left open. *)
Variable unshaped_edit : Event → JSON.value → Dynamic.t.

(** [fileReader.onload] of [handleImport]; [result] is the text read. An
    empty string is falsy. *)
Definition handleImport_onload (result : string) (s : State)
    : Completion State :=
  match result with
  | EmptyString => Returned s
  | String _ _ =>
      match JSON_parse result with
      | Returned parsed =>
          Returned (setDraftContent (Dynamic.of_JSON parsed) s)
      | Thrown _ => Returned (alert "Invalid JSON file" s)
      end
  end.

(** The handler of an editing event, run on the current draft.  On a draft of
    the declared shape the handlers of rendered controls only return or store
    a draft ([edit_stores_or_returns] below). *)
Definition apply_edit (ev : Event) (s : State) : State :=
  match draftContent s with
  | Dynamic.Shaped d =>
      match edit ev d with
      | SetDraftContent d' => setDraftContent (Dynamic.Shaped d') s
      | NoCall | Raised _ | SetUndefinedSlots _ => s
      end
  | Dynamic.Unshaped j => setDraftContent (unshaped_edit ev j) s
  end.

(** One event.  While closed the component renders the Open button only;
    while open, the panel of the active tab.  A file read completes whenever
    it completes.  [handleExport] offers the draft for download and writes no
    state. *)
Definition step (s : State) (ev : Event) : State :=
  match ev with
  | ClickOpen => if isOpen s then s else handleOpen s
  | ClickClose => if isOpen s then handleClose s else s
  | ClickTab tab => if isOpen s then setActiveTab tab s else s
  | ClickExport => s
  | FileLoaded result =>
      match handleImport_onload result s with
      | Returned s' => s'
      | Thrown _ => s
      end
  | _ =>
      if isOpen s && from_option (Tab_eqb (activeTab s)) false (tab_of ev)
      then apply_edit ev s
      else s
  end.

Definition run (s : State) (evs : list Event) : State := foldl step s evs.

End Component.

Definition is_close (ev : Event) : bool :=
  match ev with
  | ClickClose => true
  | _ => false
  end.

(** The identifiers of each collection, and their being pairwise distinct. *)
Definition project_ids (d : SiteContent.t) : list string :=
  Project.id <$> SiteContent.projects d.

Definition exhibition_ids (d : SiteContent.t) : list string :=
  Exhibition.id <$> SiteContent.exhibitions d.

Definition unique_ids (d : SiteContent.t) : Prop :=
  NoDup (project_ids d) ∧ NoDup (exhibition_ids d).

(** The component as first rendered with content [c]: closed, the draft
    cell initialised to [content]. *)
Definition closed_editor (c : SiteContent.t) : State :=
  mkState (Dynamic.Shaped c) false tab_projects (Dynamic.Shaped c) [].

(** One possible behaviour on a draft of another shape: every editing
    handler throws. *)
Definition throws_on_unshaped (ev : Event) (j : JSON.value) : Dynamic.t :=
  Dynamic.Unshaped j.

(** The copy of a value whose numbers are all written the way
    [JSON.stringify] writes them: the value again. *)
Definition copies_unchanged (j : JSON.value) : JSON.value := j.

(** A copy that turns a number into [null], as the platform does with a
    number beyond the range of a double. *)
Definition number_to_null (j : JSON.value) : JSON.value :=
  match j with
  | JSON.JNumber _ => JSON.JNull
  | _ => j
  end.

End AdminControl.

(** ** The rendered page: [App] and the [ProjectDetail] it mounts

    [App] renders [{selectedProject && <div><ProjectDetail
    project={selectedProject} /></div>}], with no [key].  React keeps a
    component instance, and with it its [useState] cells and refs, for as long
    as an element of the same type is rendered at the same place; the instance
    is created when [selectedProject] becomes defined and is dropped when it
    becomes [undefined]. *)

Module Page.

Record State : Type := mkState {
  app : App.State;
  detail : option ProjectDetail.State
}.

(** [Array.from(new Set(l))]: the distinct elements, each at its first place. *)
Fixpoint distinct_from (seen l : list string) : list string :=
  match l with
  | [] => []
  | x :: l' =>
      if bool_decide (x ∈ seen) then distinct_from seen l'
      else x :: distinct_from (x :: seen) l'
  end.

Definition categories (a : App.State) : list string :=
  match App.content a with
  | None => ["all"]
  | Some c =>
      "all" :: distinct_from [] (Project.category <$> SiteContent.projects c)
  end.

(** The instance after a render with the new [App] state. *)
Definition reconcile (a : App.State) (mounted : option ProjectDetail.State)
    : option ProjectDetail.State :=
  match App.selectedProject a with
  | None => None
  | Some _ => Some (default ProjectDetail.initial mounted)
  end.

Definition render (a : App.State) (s : State) : State :=
  {| app := a; detail := reconcile a (detail s) |}.

(** The page once the content is loaded and nothing is selected. *)
Definition loaded (c : SiteContent.t) : State :=
  {| app := App.mkState (Some c) false "all" None false None;
     detail := None |}.

Inductive Event : Type :=
| ClickCategory (cat : string)            (* a filter button *)
| ClickCard (index : nat)                 (* a card of the project grid *)
| ClickNavigate (direction : Direction)   (* Header: prev / next project *)
| ClickCloseModal                         (* Header: close *)
| ClickNextSlide
| ClickPrevSlide
| TouchStart (touch : ProjectDetail.Touch)
| TouchMove (touch : ProjectDetail.Touch)
| TouchEnd (touch : ProjectDetail.Touch)
| ContentUpdated (c : SiteContent.t).     (* AdminControl's [onUpdate] *)

(** An event of the gallery: it exists while the instance is mounted. *)
Definition on_detail (s : State)
    (k : Project.t → ProjectDetail.State → ProjectDetail.State) : State :=
  match App.selectedProject (app s), detail s with
  | Some p, Some d => {| app := app s; detail := Some (k p d) |}
  | _, _ => s
  end.

(** The slide buttons are rendered when [slides.length > 1]. *)
Definition has_slide_buttons (p : Project.t) : bool :=
  1 <? array_length (ProjectDetail.slides p).

Definition step (s : State) (ev : Event) : State :=
  match ev with
  | ClickCategory cat =>
      if bool_decide (cat ∈ categories (app s))
      then render (App.setActiveCategory cat (app s)) s else s
  | ClickCard index =>
      match App.filteredProjects (app s) !! index with
      | Some p => render (App.setSelectedProjectId (Some (Project.id p)) (app s)) s
      | None => s
      end
  | ClickNavigate direction =>
      if App.isModalOpen (app s) then
        match App.handleNavigate direction (app s) with
        | Returned a => render a s
        | Thrown _ => s
        end
      else s
  | ClickCloseModal =>
      if App.isModalOpen (app s)
      then render (App.handleCloseModal (app s)) s else s
  | ClickNextSlide =>
      on_detail s (λ p d,
        if has_slide_buttons p then ProjectDetail.nextSlide p d else d)
  | ClickPrevSlide =>
      on_detail s (λ p d,
        if has_slide_buttons p then ProjectDetail.prevSlide p d else d)
  | TouchStart t => on_detail s (λ _ d, ProjectDetail.handleTouchStart t d)
  | TouchMove t => on_detail s (λ _ d, ProjectDetail.handleTouchMove t d)
  | TouchEnd t => on_detail s (λ p d, (ProjectDetail.handleTouchEnd p t d).1)
  | ContentUpdated c => render (App.setContent (Some c) (app s)) s
  end.

Definition run (s : State) (evs : list Event) : State := foldl step s evs.

(** The slide index of the mounted gallery is an index of its slide list. *)
Definition slide_in_range (s : State) : Prop :=
  match App.selectedProject (app s), detail s with
  | Some p, Some d =>
      0 ≤ ProjectDetail.currentSlide d
        < array_length (ProjectDetail.slides p)
  | _, _ => True
  end.


(** The events of the gallery itself: its slide buttons and touch handlers. *)
Definition gallery_event (ev : Event) : bool :=
  match ev with
  | ClickNextSlide | ClickPrevSlide | TouchStart _ | TouchMove _
  | TouchEnd _ => true
  | _ => false
  end.

End Page.

(** ** The [Header] component (its project counter) *)

Module Header.

(** The counter between the prev and next buttons:
    [currentProjectIndex !== undefined && totalProjects
       ? `${currentProjectIndex + 1} / ${totalProjects}` : '']. *)
Definition counter (currentProjectIndex totalProjects : option Z) : string :=
  match currentProjectIndex, totalProjects with
  | Some i, Some n =>
      if n =? 0 then "" else pretty (i + 1) +:+ " / " +:+ pretty n
  | _, _ => ""
  end.

(** The counter as [App] feeds it: [currentProjectIndex={selectedProjectIndex}]
    and [totalProjects={filteredProjects.length}]. *)
Definition counter_of (a : App.State) : string :=
  counter (Some (App.selectedProjectIndex a))
    (Some (array_length (App.filteredProjects a))).

End Header.

(** ** The [RichTextEditor] component (in components/AdminControl.tsx)

    The editable [div] is its [innerHTML]; [value] is the prop; the parent's
    [onChange] stores the HTML it is given as the new [value], as
    [AdminControl] does with [updateProject(project.id, 'description', value)]. *)

Module RichTextEditor.

Record State : Type := mkState {
  value : string;
  innerHTML : string;
  isInternalUpdate : bool
}.

(** The effect [useEffect(..., [value])]. *)
Definition sync (s : State) : State :=
  {| value := value s;
     innerHTML :=
       if negb (isInternalUpdate s)
          && negb (bool_decide (innerHTML s = value s))
       then value s else innerHTML s;
     isInternalUpdate := false |}.

(** The first render of the component with [value]: an empty [div], then the
    effect. *)
Definition mount (v : string) : State :=
  sync {| value := v; innerHTML := ""; isInternalUpdate := false |}.

(** A later render with the prop [v]: the effect runs when [v] is not the
    [value] of the previous render. *)
Definition rerender (v : string) (s : State) : State :=
  if bool_decide (v = value s) then s
  else sync {| value := v; innerHTML := innerHTML s;
               isInternalUpdate := isInternalUpdate s |}.

(** [handleInput], and the tail of [exec]: the flag is set and [onChange] is
    called with the HTML the [div] now holds; returns the state and the
    argument of [onChange]. *)
Definition handleInput (s : State) : State * string :=
  ({| value := value s; innerHTML := innerHTML s; isInternalUpdate := true |},
   innerHTML s).

Inductive Event : Type :=
| Edited (html : string)      (* typing or a toolbar command left [html] in the [div] *)
| ValueChanged (v : string).  (* the parent's value changed by other means *)

Definition step (s : State) (ev : Event) : State :=
  match ev with
  | Edited html =>
      let '(s1, changed) :=
        handleInput {| value := value s; innerHTML := html;
                       isInternalUpdate := isInternalUpdate s |} in
      rerender changed s1
  | ValueChanged v => rerender v s
  end.

(** The [div] shows the value. *)
Definition in_sync (s : State) : Prop := innerHTML s = value s.

End RichTextEditor.

(** ** Sample content *)

Module Sample.

Definition poster : Project.t :=
  Project.mk "1" "Poster" "print" "t1.png" ""
    [ImageUrl "a.png"; ImageUrl "b.png"; ImageUrl "c.png"] "2024" None.

Definition flyer : Project.t :=
  Project.mk "2" "Flyer" "print" "t2.png" "" [] "2025" None.

Definition site : Project.t :=
  Project.mk "3" "Site" "digital" "t3.png" "" [] "2025" None.

(** Two print projects: one with three images, one with none. *)
Definition gallery_content : SiteContent.t :=
  SiteContent.mk None None [poster; flyer] [] "studio@example.org".

(** One print project and one digital project. *)
Definition two_categories : SiteContent.t :=
  SiteContent.mk None None [poster; site] [] "studio@example.org".

Definition empty_content : SiteContent.t :=
  SiteContent.mk None None [] [] "studio@example.org".

(** Three projects. *)
Definition three_projects : SiteContent.t :=
  SiteContent.mk None None [poster; flyer; site] [] "studio@example.org".

(** A second project that carries the identifier of the poster. *)
Definition reprint : Project.t :=
  Project.mk "1" "Reprint" "print" "t4.png" "" [] "2025" None.

(** The page showing the poster and the reprint, opened by a click on the
    poster's card. *)
Definition shared_identifier : App.State :=
  App.mkState
    (Some (SiteContent.mk None None [poster; reprint] [] "studio@example.org"))
    false "all" (Some "1") false None.

(** The page showing the three projects unfiltered, the last one open. *)
Definition last_selected : App.State :=
  App.mkState (Some three_projects) false "all" (Some "3") false None.

(** The page showing [two_categories] filtered by "print", its one print
    project open. *)
Definition print_selected : App.State :=
  App.mkState (Some two_categories) false "print" (Some "1") false None.

(** The same page after the filter moved to "digital" while project 1 is
    still the selected one. *)
Definition digital_with_print_selected : App.State :=
  App.mkState (Some two_categories) false "digital" (Some "1") false None.

(** [s] between double quotes. *)
Definition quoted (s : string) : string :=
  String JSON.quote s +:+ String JSON.quote EmptyString.

(** The text of a content file with no project and no exhibition. *)
Definition minimal_file : string :=
  "{" +:+ quoted "projects" +:+ ": [], " +:+ quoted "exhibitions" +:+ ": [], "
  +:+ quoted "contactEmail" +:+ ": " +:+ quoted "studio@example.org" +:+ "}".

(** Three exhibitions, the oldest first, and the times of their dates as
    [new Date(s).getTime()] gives them. *)
Definition spring_show : Exhibition.t :=
  Exhibition.mk "e1" "Spring show" "2023-05-01" "Ghent" None.

Definition book_fair : Exhibition.t :=
  Exhibition.mk "e2" "Book fair" "2024-03-15" "Antwerp" None.

Definition open_studio : Exhibition.t :=
  Exhibition.mk "e3" "Open studio" "2025-01-10" "Brussels" None.

Definition getTime (s : string) : option Z :=
  if bool_decide (s = "2023-05-01") then Some 1682899200000
  else if bool_decide (s = "2024-03-15") then Some 1710460800000
  else if bool_decide (s = "2025-01-10") then Some 1736467200000
  else None.

Definition exhibition_content : SiteContent.t :=
  SiteContent.mk None None [] [spring_show; open_studio; book_fair]
    "studio@example.org".

End Sample.

(** * Properties *)

(** ** Facts about the array helpers *)

Lemma array_get_Some {A : Type} (l : list A) (i : Z) (x : A) :
  array_get l i = Some x ↔ 0 ≤ i ∧ l !! Z.to_nat i = Some x.
Proof.
  unfold array_get. destruct (Z.ltb_spec i 0); split.
  - discriminate.
  - intros [? _]. lia.
  - auto.
  - intros [_ ?]. done.
Qed.

Lemma array_get_in_range {A : Type} (l : list A) (i : Z) :
  0 ≤ i < array_length l → is_Some (array_get l i).
Proof.
  intros [Hlo Hhi]. unfold array_get, array_length in *.
  destruct (Z.ltb_spec i 0); [lia|].
  apply lookup_lt_is_Some. lia.
Qed.

Lemma array_get_outside {A : Type} (l : list A) (i : Z) :
  i < 0 ∨ array_length l ≤ i → array_get l i = None.
Proof.
  unfold array_get, array_length. intros H.
  destruct (Z.ltb_spec i 0); [done|].
  apply lookup_ge_None. lia.
Qed.

Lemma findIndex_from_spec {A : Type} (f : A → bool) (l : list A) (k : Z) :
  0 ≤ k →
  (findIndex_from f k l = -1 ∧ Forall (λ x, f x = false) l)
  ∨ (∃ x, k ≤ findIndex_from f k l < k + array_length l
          ∧ l !! Z.to_nat (findIndex_from f k l - k) = Some x
          ∧ f x = true
          ∧ Forall (λ y, f y = false)
              (take (Z.to_nat (findIndex_from f k l - k)) l)).
Proof.
  revert k. induction l as [|a l IH]; intros k Hk; simpl.
  - left. split; [done | constructor].
  - destruct (f a) eqn:Ha.
    + right. exists a. unfold array_length. simpl.
      replace (k - k) with 0 by lia. simpl.
      repeat split; try lia; auto.
    + destruct (IH (k + 1)) as [[E HF] | (x & Hr & Hx & Hfx & HF)]; [lia | |].
      * left. split; [done | by constructor].
      * right. exists x. unfold array_length in *. simpl length.
        set (r := findIndex_from f (k + 1) l) in *.
        replace (Z.to_nat (r - k)) with (S (Z.to_nat (r - (k + 1)))) by lia.
        simpl. repeat split; try lia; auto.
Qed.

Lemma findIndex_spec {A : Type} (f : A → bool) (l : list A) :
  (findIndex f l = -1 ∧ Forall (λ x, f x = false) l)
  ∨ (∃ x, 0 ≤ findIndex f l < array_length l
          ∧ l !! Z.to_nat (findIndex f l) = Some x
          ∧ f x = true
          ∧ Forall (λ y, f y = false) (take (Z.to_nat (findIndex f l)) l)).
Proof.
  unfold findIndex.
  destruct (findIndex_from_spec f l 0) as [H | (x & H1 & H2 & H3 & H4)];
    [lia | by left |].
  right. exists x. rewrite Z.sub_0_r in *. repeat split; auto; lia.
Qed.

(** The first index at which [f] holds is what [findIndex] returns. *)
Lemma findIndex_first {A : Type} (f : A → bool) (l : list A) (i : nat) (x : A) :
  l !! i = Some x → f x = true →
  Forall (λ y, f y = false) (take i l) →
  findIndex f l = Z.of_nat i.
Proof.
  intros Hx Hfx Hbefore.
  destruct (findIndex_spec f l) as [[_ HF] | (y & Hr & Hy & Hfy & HFy)].
  - rewrite Forall_forall in HF.
    assert (f x = false) by (apply HF; eapply list_elem_of_lookup_2; eauto).
    congruence.
  - set (r := findIndex f l) in *.
    destruct (decide (Z.to_nat r = i)) as [E | NE]; [lia|].
    exfalso. destruct (decide (Z.to_nat r < i)%nat).
    + rewrite Forall_forall in Hbefore.
      assert (f y = false); [|congruence].
      apply Hbefore. apply list_elem_of_lookup. exists (Z.to_nat r).
      rewrite lookup_take_lt by lia. done.
    + rewrite Forall_forall in HFy.
      assert (f x = false); [|congruence].
      apply HFy. apply list_elem_of_lookup. exists i.
      rewrite lookup_take_lt by lia. done.
Qed.

(** ** C5 *)




(** ** C10, C6: project navigation *)

Lemma id_matches_true (sel : option string) (p : Project.t) :
  App.id_matches sel p = true ↔ sel = Some (Project.id p).
Proof.
  unfold App.id_matches. destruct sel as [i|]; [|split; discriminate].
  rewrite bool_decide_eq_true. split; [intros ->; done | intros [= ->]; done].
Qed.

Lemma selectedProjectIndex_absent (s : App.State) :
  (∀ p, p ∈ App.filteredProjects s →
        App.selectedProjectId s ≠ Some (Project.id p)) →
  App.selectedProjectIndex s = -1.
Proof.
  intros Habs. unfold App.selectedProjectIndex.
  destruct (findIndex_spec (App.id_matches (App.selectedProjectId s))
              (App.filteredProjects s)) as [[E _] | (x & _ & Hx & Hfx & _)];
    [done|].
  apply id_matches_true in Hfx. exfalso.
  eapply Habs; [|exact Hfx]. eapply list_elem_of_lookup_2; eauto.
Qed.

(** C10.  When the selected identifier does not occur among the identifiers
    of the filtered projects, or nothing is selected, [handleNavigate] returns
    (it does not throw) and leaves every state cell of [App] as it was. *)
Theorem C10_navigate_noop_when_selection_not_in_filter
    (direction : Direction) (s : App.State) :
  (∀ i, App.selectedProjectId s = Some i →
        i ∉ Project.id <$> App.filteredProjects s) →
  App.selectedProjectIndex s = -1
  ∧ App.handleNavigate direction s = Returned s.
Proof.
  intros Habs.
  assert (App.selectedProjectIndex s = -1) as E.
  { apply selectedProjectIndex_absent. intros p Hp Hsel.
    apply (Habs _ Hsel). apply list_elem_of_fmap. eauto. }
  split; [done|]. unfold App.handleNavigate. by rewrite E.
Qed.

(** The filter moved to "digital" while print project 1 is selected. *)
Lemma C10_navigate_noop_when_selection_not_in_filter_witness :
  App.handleNavigate next Sample.digital_with_print_selected
    = Returned Sample.digital_with_print_selected
  ∧ App.handleNavigate prev Sample.digital_with_print_selected
    = Returned Sample.digital_with_print_selected.
Proof.
  assert (∀ i, App.selectedProjectId Sample.digital_with_print_selected
                 = Some i →
               i ∉ Project.id
                     <$> App.filteredProjects
                           Sample.digital_with_print_selected) as H.
  { intros i [= <-]. vm_compute. intros Hin.
    apply list_elem_of_singleton in Hin. discriminate Hin. }
  split.
  - apply (C10_navigate_noop_when_selection_not_in_filter next
             Sample.digital_with_print_selected H).
  - apply (C10_navigate_noop_when_selection_not_in_filter prev
             Sample.digital_with_print_selected H).
Defined.

Lemma selectedProjectIndex_found (s : App.State) :
  App.selectedProjectIndex s ≠ -1 →
  ∃ p, 0 ≤ App.selectedProjectIndex s < array_length (App.filteredProjects s)
       ∧ App.filteredProjects s !! Z.to_nat (App.selectedProjectIndex s) = Some p
       ∧ App.selectedProjectId s = Some (Project.id p).
Proof.
  intros Hne. unfold App.selectedProjectIndex in *.
  destruct (findIndex_spec (App.id_matches (App.selectedProjectId s))
              (App.filteredProjects s)) as [[E _] | (x & Hr & Hx & Hfx & _)];
    [done|].
  exists x. apply id_matches_true in Hfx. done.
Qed.

(** With pairwise distinct identifiers, the entry carrying the selected
    identifier is found at its own position. *)
Lemma selectedProjectIndex_at (s : App.State) (j : nat) (q : Project.t) :
  NoDup (Project.id <$> App.filteredProjects s) →
  App.filteredProjects s !! j = Some q →
  App.selectedProjectId s = Some (Project.id q) →
  App.selectedProjectIndex s = Z.of_nat j.
Proof.
  intros Hnd Hq Hsel. unfold App.selectedProjectIndex.
  eapply findIndex_first; [exact Hq | by apply id_matches_true |].
  apply Forall_forall. intros y Hy.
  apply list_elem_of_lookup in Hy as [k Hk].
  destruct (decide (k < j)%nat) as [Hlt|];
    [|rewrite lookup_take_ge in Hk by lia; done].
  rewrite lookup_take_lt in Hk by done.
  destruct (App.id_matches (App.selectedProjectId s) y) eqn:E; [|done].
  apply id_matches_true in E. rewrite Hsel in E. injection E as E.
  assert (k = j); [|lia].
  apply (NoDup_lookup _ k j (Project.id q) Hnd);
    rewrite list_lookup_fmap; [rewrite Hk | rewrite Hq]; simpl; congruence.
Qed.

Lemma handleNavigate_found (direction : Direction) (s : App.State) :
  App.selectedProjectIndex s ≠ -1 →
  let n := array_length (App.filteredProjects s) in
  let i := App.selectedProjectIndex s in
  let j := match direction with
           | next => (i + 1) `mod` n
           | prev => (i - 1 + n) `mod` n
           end in
  0 ≤ j < n ∧
  ∃ q, App.filteredProjects s !! Z.to_nat j = Some q
       ∧ App.handleNavigate direction s
         = Returned (App.setSelectedProjectId (Some (Project.id q)) s).
Proof.
  intros Hne n i j.
  destruct (selectedProjectIndex_found s Hne) as (p & Hr & _ & _).
  fold n i in Hr.
  assert (0 ≤ j < n) as Hj by (subst j; destruct direction; apply Z.mod_pos_bound; lia).
  split; [done|].
  destruct (array_get_in_range (App.filteredProjects s) j Hj) as [q Hq].
  exists q. split; [by apply array_get_Some in Hq as [_ ?]|].
  unfold App.handleNavigate. fold i n.
  destruct (Z.eqb_spec i (-1)); [done|].
  assert (j = (let newIndex := match direction with
                               | next => i + 1
                               | prev => i - 1
                               end in
               let newIndex := if newIndex >=? n then 0 else newIndex in
               if newIndex <? 0 then n - 1 else newIndex)) as Ej.
  { subst j. destruct direction; simpl.
    - destruct (Z.geb_spec (i - 1) n); [lia|].
      destruct (Z.ltb_spec (i - 1) 0).
      + replace (i - 1 + n) with (n - 1) by lia. apply Z.mod_small. lia.
      + replace (i - 1 + n) with (i - 1 + 1 * n) by lia.
        rewrite Z.mod_add by lia. apply Z.mod_small. lia.
    - destruct (Z.geb_spec (i + 1) n).
      + replace (i + 1) with n by lia. rewrite Z.mod_same by lia. done.
      + destruct (Z.ltb_spec (i + 1) 0); [lia|]. apply Z.mod_small. lia. }
  simpl in Ej. destruct direction; rewrite <- Ej, Hq; done.
Qed.

Lemma selectedProjectIndex_first_match (a : App.State) (k : nat)
    (p : Project.t) :
  App.filteredProjects a !! k = Some p →
  App.selectedProjectId a = Some (Project.id p) →
  (∀ (j : nat) q, (j < k)%nat → App.filteredProjects a !! j = Some q →
                  Project.id q ≠ Project.id p) →
  App.selectedProjectIndex a = Z.of_nat k.
Proof.
  intros Hp Hsel Hfirst. unfold App.selectedProjectIndex.
  eapply findIndex_first; [exact Hp | by apply id_matches_true |].
  apply Forall_forall. intros y Hy.
  apply list_elem_of_lookup in Hy as [j Hj].
  destruct (decide (j < k)%nat) as [Hlt|];
    [|rewrite lookup_take_ge in Hj by lia; done].
  rewrite lookup_take_lt in Hj by done.
  destruct (App.id_matches (App.selectedProjectId a) y) eqn:E; [|done].
  apply id_matches_true in E. rewrite Hsel in E. injection E as E.
  by destruct (Hfirst j y Hlt Hj).
Qed.

(** C6 (as the code has it).  Project navigation works on the filtered
    list, and the selected project is located by its identifier: it is the
    first project of the filtered list that carries the selected identifier.
    With [k] its position in that list of [n] entries: the position found is
    [k] and the project shown is that one; next selects the identifier of the
    entry at position [(k+1) mod n] and prev that of the entry at position
    [(k-1+n) mod n], so both ends wrap; neither throws, and the filtered list
    stays as it is.  The project shown afterwards is the first one that
    carries the identifier selected: it is the entry at that position itself
    whenever the identifiers of the filtered projects are pairwise distinct.
    When [n = 1] next and prev return the state unchanged. *)
Theorem C6_navigate_within_filtered_list (s : App.State) (k : nat)
    (p : Project.t) (direction : Direction) :
  let fp := App.filteredProjects s in
  let n := array_length fp in
  let target :=
    match direction with
    | next => (Z.of_nat k + 1) `mod` n
    | prev => (Z.of_nat k - 1 + n) `mod` n
    end in
  fp !! k = Some p →
  App.selectedProjectId s = Some (Project.id p) →
  (∀ (j : nat) q, (j < k)%nat → fp !! j = Some q →
                  Project.id q ≠ Project.id p) →
  App.selectedProjectIndex s = Z.of_nat k
  ∧ App.selectedProject s = Some p
  ∧ 0 ≤ target < n
  ∧ ∃ q s',
      fp !! Z.to_nat target = Some q
      ∧ App.handleNavigate direction s = Returned s'
      ∧ s' = App.setSelectedProjectId (Some (Project.id q)) s
      ∧ App.filteredProjects s' = fp
      ∧ (∀ (k' : nat) q',
           fp !! k' = Some q' → Project.id q' = Project.id q →
           (∀ (j : nat) r, (j < k')%nat → fp !! j = Some r →
                           Project.id r ≠ Project.id q) →
           App.selectedProjectIndex s' = Z.of_nat k'
           ∧ App.selectedProject s' = Some q')
      ∧ (NoDup (Project.id <$> fp) →
         App.selectedProjectIndex s' = target
         ∧ App.selectedProject s' = Some q)
      ∧ (n = 1 → s' = s).
Proof.
  intros fp n target Hp Hsel Hfirst.
  assert (App.selectedProjectIndex s = Z.of_nat k) as Hidx
    by (by apply (selectedProjectIndex_first_match s k p)).
  assert (App.selectedProjectIndex s ≠ -1) as Hne by lia.
  assert (App.selectedProject s = Some p) as Hshown.
  { unfold App.selectedProject. rewrite Hidx. apply array_get_Some.
    split; [lia|]. by rewrite Nat2Z.id. }
  pose proof (handleNavigate_found direction s Hne) as Hfound.
  cbv zeta in Hfound. rewrite Hidx in Hfound.
  fold fp in Hfound. fold n in Hfound. fold target in Hfound.
  destruct Hfound as (Hj & q & Hq & Hnav).
  split; [done|]. split; [done|]. split; [done|].
  exists q, (App.setSelectedProjectId (Some (Project.id q)) s).
  split; [done|]. split; [done|]. split; [done|]. split; [done|].
  split; [|split].
  - intros k' q' Hq' Hid Hfirst'.
    assert (App.selectedProjectIndex
              (App.setSelectedProjectId (Some (Project.id q)) s)
            = Z.of_nat k') as Hidx'.
    { apply (selectedProjectIndex_first_match _ k' q'); [done| |].
      - simpl. by rewrite Hid.
      - intros j r Hjk Hr. rewrite Hid. by apply (Hfirst' j r). }
    split; [done|].
    unfold App.selectedProject. rewrite Hidx'. apply array_get_Some.
    split; [lia|]. by rewrite Nat2Z.id.
  - intros Hnd.
    assert (App.selectedProjectIndex
              (App.setSelectedProjectId (Some (Project.id q)) s) = target)
      as Hidx'.
    { rewrite (selectedProjectIndex_at _ (Z.to_nat target) q); try done.
      apply Z2Nat.id, Hj. }
    split; [done|].
    unfold App.selectedProject. rewrite Hidx'. apply array_get_Some.
    split; [apply Hj | done].
  - intros Hn.
    assert (k = 0%nat) as ->
      by (apply lookup_lt_Some in Hp; unfold n, array_length in Hn; lia).
    assert (target = 0) as Ht by lia.
    rewrite Ht in Hq. change (Z.to_nat 0) with 0%nat in Hq.
    assert (q = p) as -> by congruence.
    destruct s; simpl in *. by rewrite Hsel.
Qed.

(** Three projects with the last one open: next wraps to the first, which is
    then the project shown, and prev goes to the second.  And the scenario of
    the specification: projects of categories "print" and "digital", the
    filter on "print", the one print project open; next selects it again. *)
Lemma C6_navigate_within_filtered_list_witness :
  App.handleNavigate next Sample.last_selected
    = Returned (App.setSelectedProjectId (Some "1") Sample.last_selected)
  ∧ App.selectedProject
      (App.setSelectedProjectId (Some "1") Sample.last_selected)
    = Some Sample.poster
  ∧ App.handleNavigate prev Sample.last_selected
    = Returned (App.setSelectedProjectId (Some "2") Sample.last_selected)
  ∧ App.filteredProjects Sample.print_selected = [Sample.poster]
  ∧ App.handleNavigate next Sample.print_selected
    = Returned Sample.print_selected.
Proof.
  assert (NoDup (Project.id <$> App.filteredProjects Sample.last_selected))
    as Hnd3.
  { vm_compute. repeat constructor; intros Hin;
      repeat (apply elem_of_cons in Hin as [Hin | Hin]; [discriminate Hin|]);
      inversion Hin. }
  assert (∀ (j : nat) q, (j < 2)%nat →
            App.filteredProjects Sample.last_selected !! j = Some q →
            Project.id q ≠ Project.id Sample.site) as Hfirst3.
  { intros j q Hj Hq. destruct j as [|[|j]]; [| |lia];
      injection Hq as <-; discriminate. }
  assert (∀ (j : nat) q, (j < 0)%nat →
            App.filteredProjects Sample.print_selected !! j = Some q →
            Project.id q ≠ Project.id Sample.poster) as Hfirst1
    by (intros j q Hj; lia).
  destruct (C6_navigate_within_filtered_list Sample.last_selected 2
              Sample.site next eq_refl eq_refl Hfirst3)
    as (_ & _ & _ & q & s' & Hq & Hnav & -> & _ & _ & Hshown & _).
  injection Hq as <-.
  split; [exact Hnav|]. split; [exact (proj2 (Hshown Hnd3))|].
  split; [|split; [reflexivity|]].
  - destruct (C6_navigate_within_filtered_list Sample.last_selected 2
                Sample.site prev eq_refl eq_refl Hfirst3)
      as (_ & _ & _ & q & s' & Hq & Hnav' & -> & _).
    injection Hq as <-. exact Hnav'.
  - destruct (C6_navigate_within_filtered_list Sample.print_selected 0
                Sample.poster next eq_refl eq_refl Hfirst1)
      as (_ & _ & _ & q & s' & _ & Hnav' & _ & _ & _ & _ & Hone).
    rewrite Hnav'. f_equal. by apply Hone.
Defined.

(** The claim as stated fails when two filtered projects share an
    identifier: with the poster open, next selects the identifier of the
    reprint, which is the poster's, and the project shown is the poster
    again, not the following entry. *)
Lemma C6_counterexample_shared_identifier :
  App.filteredProjects Sample.shared_identifier
    = [Sample.poster; Sample.reprint]
  ∧ App.selectedProject Sample.shared_identifier = Some Sample.poster
  ∧ App.handleNavigate next Sample.shared_identifier
    = Returned Sample.shared_identifier
  ∧ App.selectedProject Sample.shared_identifier ≠ Some Sample.reprint.
Proof.
  split; [reflexivity|]. split; [reflexivity|]. split; [reflexivity|].
  discriminate.
Qed.

(** ** C3: slide index arithmetic *)

Lemma next_index_mod (N i : Z) :
  1 ≤ N → 0 ≤ i < N → ProjectDetail.next_index N i = (i + 1) `mod` N.
Proof. intros. unfold ProjectDetail.next_index. apply Z.rem_mod_nonneg; lia. Qed.

Lemma prev_index_mod (N i : Z) :
  1 ≤ N → 0 ≤ i < N → ProjectDetail.prev_index N i = (i - 1 + N) `mod` N.
Proof. intros. unfold ProjectDetail.prev_index. apply Z.rem_mod_nonneg; lia. Qed.

Lemma next_index_in_range (N i : Z) :
  1 ≤ N → 0 ≤ i < N → 0 ≤ ProjectDetail.next_index N i < N.
Proof. intros. rewrite next_index_mod by done. apply Z.mod_pos_bound. lia. Qed.

Lemma prev_index_in_range (N i : Z) :
  1 ≤ N → 0 ≤ i < N → 0 ≤ ProjectDetail.prev_index N i < N.
Proof. intros. rewrite prev_index_mod by done. apply Z.mod_pos_bound. lia. Qed.

Lemma iter_next_index (N i : Z) (k : nat) :
  1 ≤ N → 0 ≤ i < N →
  Nat.iter k (ProjectDetail.next_index N) i = (i + Z.of_nat k) `mod` N.
Proof.
  intros HN Hi. induction k as [|k IH].
  - simpl. rewrite Z.add_0_r, Z.mod_small; done.
  - rewrite Nat.iter_succ, IH.
    rewrite next_index_mod by (try apply Z.mod_pos_bound; lia).
    rewrite Zplus_mod_idemp_l. f_equal. lia.
Qed.

Lemma iter_prev_index (N i : Z) (k : nat) :
  1 ≤ N → 0 ≤ i < N →
  Nat.iter k (ProjectDetail.prev_index N) i = (i - Z.of_nat k) `mod` N.
Proof.
  intros HN Hi. induction k as [|k IH].
  - simpl. rewrite Z.sub_0_r, Z.mod_small; done.
  - rewrite Nat.iter_succ, IH.
    rewrite prev_index_mod by (try apply Z.mod_pos_bound; lia).
    replace ((i - Z.of_nat k) `mod` N - 1 + N)
      with ((i - Z.of_nat k) `mod` N + (N - 1)) by lia.
    rewrite Zplus_mod_idemp_l.
    replace (i - Z.of_nat k + (N - 1)) with (i - Z.of_nat (S k) + 1 * N) by lia.
    by rewrite Z.mod_add by lia.
Qed.

Lemma iter_setCurrentSlide (f : Z → Z) (s : ProjectDetail.State) (k : nat) :
  Nat.iter k (ProjectDetail.setCurrentSlide f) s
  = ProjectDetail.setCurrentSlide (Nat.iter k f) s.
Proof.
  induction k as [|k IH]; [by destruct s|].
  rewrite !Nat.iter_succ, IH. done.
Qed.

(** C3.  With [N ≥ 1] the number of slides of the project shown and the
    current index [i] in [0, N): [nextSlide] leaves the index at
    [(i+1) mod N] and [prevSlide] at [(i-1+N) mod N]; from index [N-1]
    [nextSlide] leads to 0 and from index 0 [prevSlide] leads to [N-1]; and
    [N] calls of [nextSlide], or of [prevSlide], lead back to the state they
    started from. *)
Theorem C3_slide_index_wraps_and_cycles (project : Project.t)
    (s : ProjectDetail.State) :
  let N := array_length (ProjectDetail.slides project) in
  let i := ProjectDetail.currentSlide s in
  0 ≤ i < N →
  1 ≤ N
  ∧ ProjectDetail.currentSlide (ProjectDetail.nextSlide project s)
    = (i + 1) `mod` N
  ∧ ProjectDetail.currentSlide (ProjectDetail.prevSlide project s)
    = (i - 1 + N) `mod` N
  ∧ (i = N - 1 →
     ProjectDetail.currentSlide (ProjectDetail.nextSlide project s) = 0)
  ∧ (i = 0 →
     ProjectDetail.currentSlide (ProjectDetail.prevSlide project s) = N - 1)
  ∧ Nat.iter (Z.to_nat N) (ProjectDetail.nextSlide project) s = s
  ∧ Nat.iter (Z.to_nat N) (ProjectDetail.prevSlide project) s = s.
Proof.
  intros N i Hi.
  assert (1 ≤ N) as HN by lia.
  assert (ProjectDetail.currentSlide (ProjectDetail.nextSlide project s)
          = (i + 1) `mod` N) as Hnext by (by apply next_index_mod).
  assert (ProjectDetail.currentSlide (ProjectDetail.prevSlide project s)
          = (i - 1 + N) `mod` N) as Hprev by (by apply prev_index_mod).
  split; [done|]. split; [done|]. split; [done|].
  split.
  { intros E. rewrite Hnext, E.
    replace (N - 1 + 1) with N by lia. apply Z.mod_same. lia. }
  split.
  { intros E. rewrite Hprev, E.
    replace (0 - 1 + N) with (N - 1) by lia. apply Z.mod_small. lia. }
  unfold ProjectDetail.nextSlide, ProjectDetail.prevSlide.
  rewrite !iter_setCurrentSlide. fold N.
  unfold ProjectDetail.setCurrentSlide. fold i.
  rewrite iter_next_index, iter_prev_index by done.
  rewrite Z2Nat.id by lia.
  replace (i + N) with (i + 1 * N) by lia.
  replace (i - N) with (i + (-1) * N) by lia.
  rewrite !Z.mod_add by lia. rewrite Z.mod_small by done.
  subst i. by destruct s.
Qed.

(** The three slides of the poster: from the last slide [nextSlide] leads to
    the first, from the first [prevSlide] leads to the last, and three calls
    of either lead back. *)
Lemma C3_slide_index_wraps_and_cycles_witness :
  let at_slide i := ProjectDetail.mkState i None None false in
  ProjectDetail.nextSlide Sample.poster (at_slide 2) = at_slide 0
  ∧ ProjectDetail.prevSlide Sample.poster (at_slide 0) = at_slide 2
  ∧ Nat.iter 3 (ProjectDetail.nextSlide Sample.poster) (at_slide 1)
    = at_slide 1
  ∧ Nat.iter 3 (ProjectDetail.prevSlide Sample.poster) (at_slide 1)
    = at_slide 1.
Proof.
  intros at_slide.
  assert (∀ i, 0 ≤ i < 3 →
            0 ≤ ProjectDetail.currentSlide (at_slide i)
              < array_length (ProjectDetail.slides Sample.poster)) as Hi.
  { intros i Hi. exact Hi. }
  split; [reflexivity|]. split; [reflexivity|].
  destruct (C3_slide_index_wraps_and_cycles Sample.poster (at_slide 1)
              (Hi 1 ltac:(lia))) as (_ & _ & _ & _ & _ & Hn & Hp).
  split; [exact Hn | exact Hp].
Defined.

(** The slide list is never empty; the handlers keep an index of it one. *)

Lemma slides_length (p : Project.t) :
  array_length (ProjectDetail.slides p)
  = if 0 <? array_length (Project.images p)
    then array_length (Project.images p) else 1.
Proof.
  unfold ProjectDetail.slides, array_length.
  rewrite length_fmap. by destruct (0 <? _).
Qed.

Lemma slides_nonempty (p : Project.t) :
  1 ≤ array_length (ProjectDetail.slides p).
Proof.
  rewrite slides_length. destruct (Z.ltb_spec 0 (array_length (Project.images p))); lia.
Qed.

(** ** C4: swipe recognition *)

Lemma touch_moves_state (start : ProjectDetail.Touch)
    (moves : list ProjectDetail.Touch) (s : ProjectDetail.State) :
  ProjectDetail.touchStartX s = Some (ProjectDetail.clientX start) →
  ProjectDetail.touchStartY s = Some (ProjectDetail.clientY start) →
  let s' := foldl (λ s m, ProjectDetail.handleTouchMove m s) s moves in
  ProjectDetail.touchStartX s' = Some (ProjectDetail.clientX start)
  ∧ ProjectDetail.touchStartY s' = Some (ProjectDetail.clientY start)
  ∧ ProjectDetail.currentSlide s' = ProjectDetail.currentSlide s
  ∧ ProjectDetail.isSwiping s'
    = ProjectDetail.isSwiping s || existsb (ProjectDetail.horizontal_intent start) moves.
Proof.
  revert s. induction moves as [|m moves IH]; intros s HX HY; simpl.
  - by rewrite orb_false_r.
  - set (s1 := ProjectDetail.handleTouchMove m s).
    assert (ProjectDetail.touchStartX s1 = Some (ProjectDetail.clientX start)
            ∧ ProjectDetail.touchStartY s1 = Some (ProjectDetail.clientY start)
            ∧ ProjectDetail.currentSlide s1 = ProjectDetail.currentSlide s
            ∧ ProjectDetail.isSwiping s1
              = ProjectDetail.isSwiping s || ProjectDetail.horizontal_intent start m)
      as (HX1 & HY1 & HC1 & HS1).
    { subst s1. unfold ProjectDetail.handleTouchMove, ProjectDetail.horizontal_intent,
        ProjectDetail.dead_zone.
      rewrite HX, HY.
      destruct (ProjectDetail.isSwiping s) eqn:Hsw; simpl; [done|].
      destruct (_ <? _); simpl; [|done].
      destruct (_ <? _); simpl; done. }
    destruct (IH s1 HX1 HY1) as (? & ? & ? & HS).
    repeat split; try congruence.
    rewrite HS, HS1. by rewrite orb_assoc.
Qed.

(** What a whole touch sequence calls. *)
Lemma touch_sequence_calls (project : Project.t)
    (start : ProjectDetail.Touch) (moves : list ProjectDetail.Touch)
    (release : ProjectDetail.Touch) (s : ProjectDetail.State) :
  let deltaX := ProjectDetail.clientX release - ProjectDetail.clientX start in
  let deltaY := ProjectDetail.clientY release - ProjectDetail.clientY start in
  (ProjectDetail.touch_sequence project start moves release s).2
  = if existsb (ProjectDetail.horizontal_intent start) moves
       && (Z.abs deltaY <? Z.abs deltaX)
       && (ProjectDetail.commit_threshold <? Z.abs deltaX)
    then [if deltaX <? 0 then ProjectDetail.CallNextSlide
          else ProjectDetail.CallPrevSlide]
    else [].
Proof.
  intros deltaX deltaY. unfold ProjectDetail.touch_sequence.
  destruct (touch_moves_state start moves
              (ProjectDetail.handleTouchStart start s) eq_refl eq_refl)
    as (HX & HY & _ & HS).
  simpl in HS. unfold ProjectDetail.handleTouchEnd.
  rewrite HX, HY, HS. fold deltaX deltaY.
  unfold ProjectDetail.commit_threshold.
  destruct (existsb _ moves); simpl; [|done].
  destruct (Z.abs deltaY <? Z.abs deltaX); simpl; [|done].
  destruct (40 <? Z.abs deltaX); simpl; [|done].
  by destruct (deltaX <? 0).
Qed.

(** A move point at the release position with [|deltaX| > commit-threshold]
    and [|deltaX| > |deltaY|] shows horizontal intent. *)
Lemma release_among_moves (start release : ProjectDetail.Touch)
    (moves : list ProjectDetail.Touch) :
  let deltaX := ProjectDetail.clientX release - ProjectDetail.clientX start in
  let deltaY := ProjectDetail.clientY release - ProjectDetail.clientY start in
  release ∈ moves →
  Z.abs deltaX > ProjectDetail.commit_threshold →
  Z.abs deltaX > Z.abs deltaY →
  existsb (ProjectDetail.horizontal_intent start) moves = true.
Proof.
  intros deltaX deltaY Hin H1 H2. apply existsb_exists. exists release.
  split; [by apply list_elem_of_In|].
  unfold ProjectDetail.horizontal_intent, ProjectDetail.dead_zone,
    ProjectDetail.commit_threshold in *.
  fold deltaX deltaY. apply andb_true_iff. split; apply Z.ltb_lt; lia.
Qed.

(** C4 (as the code has it).  For a touch sequence with final displacement
    [(deltaX, deltaY)]: if [|deltaX| ≤ dead-zone] or [|deltaY| ≥ |deltaX|], no
    navigation is called; if no move point of the sequence showed horizontal
    intent (a horizontal displacement from the start larger than the vertical
    one and than the dead zone), no navigation is called either; if some move
    point did (as is the case when the release point is one of the move
    points), and [|deltaX| > commit-threshold] and [|deltaX| > |deltaY|],
    exactly one navigation is called, next for [deltaX < 0] and prev for
    [deltaX > 0]; and dead-zone < commit-threshold. *)
Theorem C4_swipe_navigation (project : Project.t)
    (start : ProjectDetail.Touch) (moves : list ProjectDetail.Touch)
    (release : ProjectDetail.Touch) (s : ProjectDetail.State) :
  let deltaX := ProjectDetail.clientX release - ProjectDetail.clientX start in
  let deltaY := ProjectDetail.clientY release - ProjectDetail.clientY start in
  let calls :=
    (ProjectDetail.touch_sequence project start moves release s).2 in
  (Z.abs deltaX ≤ ProjectDetail.dead_zone ∨ Z.abs deltaY >= Z.abs deltaX →
     calls = [])
  ∧ (existsb (ProjectDetail.horizontal_intent start) moves = false → calls = [])
  ∧ (existsb (ProjectDetail.horizontal_intent start) moves = true
     ∨ release ∈ moves →
     Z.abs deltaX > ProjectDetail.commit_threshold →
     Z.abs deltaX > Z.abs deltaY →
     (deltaX < 0 → calls = [ProjectDetail.CallNextSlide])
     ∧ (deltaX > 0 → calls = [ProjectDetail.CallPrevSlide])
     ∧ length calls = 1%nat)
  ∧ ProjectDetail.dead_zone < ProjectDetail.commit_threshold.
Proof.
  intros deltaX deltaY calls.
  assert (calls
          = if existsb (ProjectDetail.horizontal_intent start) moves
               && (Z.abs deltaY <? Z.abs deltaX)
               && (ProjectDetail.commit_threshold <? Z.abs deltaX)
            then [if deltaX <? 0 then ProjectDetail.CallNextSlide
                  else ProjectDetail.CallPrevSlide]
            else []) as -> by apply touch_sequence_calls.
  unfold ProjectDetail.dead_zone, ProjectDetail.commit_threshold.
  split; [|split; [|split]].
  - intros H. destruct (existsb _ moves); simpl; [|done].
    destruct (Z.ltb_spec (Z.abs deltaY) (Z.abs deltaX)); simpl; [|done].
    destruct (Z.ltb_spec 40 (Z.abs deltaX)); simpl; [lia | done].
  - intros ->. done.
  - intros Hintent H1 H2.
    assert (existsb (ProjectDetail.horizontal_intent start) moves = true)
      as -> by (destruct Hintent;
                [done | by apply (release_among_moves start release)]).
    simpl.
    destruct (Z.ltb_spec (Z.abs deltaY) (Z.abs deltaX)); simpl; [|lia].
    destruct (Z.ltb_spec 40 (Z.abs deltaX)); simpl; [|lia].
    destruct (Z.ltb_spec deltaX 0); repeat split; intros; try done; lia.
  - lia.
Qed.

(** A leftward swipe: start at (200, 100), a move to (150, 102), release at
    (100, 105). *)
Lemma C4_swipe_navigation_witness :
  (ProjectDetail.touch_sequence Sample.poster (ProjectDetail.mkTouch 200 100)
     [ProjectDetail.mkTouch 150 102] (ProjectDetail.mkTouch 100 105)
     ProjectDetail.initial).2 = [ProjectDetail.CallNextSlide].
Proof.
  apply (C4_swipe_navigation Sample.poster (ProjectDetail.mkTouch 200 100)
           [ProjectDetail.mkTouch 150 102] (ProjectDetail.mkTouch 100 105)
           ProjectDetail.initial); [left | ..]; reflexivity.
Defined.

(** The claim as stated fails without a move point: a release 100 pixels to
    the left of the start, with no [touchmove] in between, has
    [|deltaX| > commit-threshold] and [|deltaX| > |deltaY|], and calls no
    navigation. *)
Lemma C4_counterexample_no_move :
  let start := ProjectDetail.mkTouch 200 100 in
  let release := ProjectDetail.mkTouch 100 100 in
  let deltaX := ProjectDetail.clientX release - ProjectDetail.clientX start in
  let deltaY := ProjectDetail.clientY release - ProjectDetail.clientY start in
  Z.abs deltaX > ProjectDetail.commit_threshold
  ∧ Z.abs deltaX > Z.abs deltaY
  ∧ deltaX < 0
  ∧ (ProjectDetail.touch_sequence Sample.poster start [] release
       ProjectDetail.initial).2 = []
  ∧ (ProjectDetail.touch_sequence Sample.poster start [] release
       ProjectDetail.initial).2 ≠ [ProjectDetail.CallNextSlide].
Proof. vm_compute. repeat split; congruence. Qed.

(** ** C8: the slide index of the mounted gallery *)

Lemma nextSlide_in_range (p : Project.t) (d : ProjectDetail.State) :
  0 ≤ ProjectDetail.currentSlide d < array_length (ProjectDetail.slides p) →
  0 ≤ ProjectDetail.currentSlide (ProjectDetail.nextSlide p d)
    < array_length (ProjectDetail.slides p).
Proof. intros. apply next_index_in_range; [apply slides_nonempty | done]. Qed.

Lemma prevSlide_in_range (p : Project.t) (d : ProjectDetail.State) :
  0 ≤ ProjectDetail.currentSlide d < array_length (ProjectDetail.slides p) →
  0 ≤ ProjectDetail.currentSlide (ProjectDetail.prevSlide p d)
    < array_length (ProjectDetail.slides p).
Proof. intros. apply prev_index_in_range; [apply slides_nonempty | done]. Qed.

Lemma handleTouchMove_currentSlide (t : ProjectDetail.Touch)
    (d : ProjectDetail.State) :
  ProjectDetail.currentSlide (ProjectDetail.handleTouchMove t d)
  = ProjectDetail.currentSlide d.
Proof.
  unfold ProjectDetail.handleTouchMove.
  destruct (ProjectDetail.touchStartX d), (ProjectDetail.touchStartY d);
    try done.
  by destruct (_ && _).
Qed.

Lemma handleTouchEnd_in_range (p : Project.t) (t : ProjectDetail.Touch)
    (d : ProjectDetail.State) :
  0 ≤ ProjectDetail.currentSlide d < array_length (ProjectDetail.slides p) →
  0 ≤ ProjectDetail.currentSlide (ProjectDetail.handleTouchEnd p t d).1
    < array_length (ProjectDetail.slides p).
Proof.
  intros H. unfold ProjectDetail.handleTouchEnd.
  destruct (ProjectDetail.touchStartX d), (ProjectDetail.touchStartY d),
    (ProjectDetail.isSwiping d); try done.
  destruct (_ && _); [|done].
  destruct (_ <? 0); simpl;
    [by apply nextSlide_in_range | by apply prevSlide_in_range].
Qed.

Lemma render_in_range (a : App.State) (s : Page.State) :
  App.selectedProject a = App.selectedProject (Page.app s) →
  Page.slide_in_range s → Page.slide_in_range (Page.render a s).
Proof.
  unfold Page.slide_in_range, Page.render, Page.reconcile. simpl.
  intros ->. destruct (App.selectedProject (Page.app s)) as [p|]; [|done].
  destruct (Page.detail s) as [d|]; simpl; [done|].
  intros _. pose proof (slides_nonempty p). lia.
Qed.

Lemma on_detail_in_range (s : Page.State)
    (k : Project.t → ProjectDetail.State → ProjectDetail.State) :
  (∀ p d,
     0 ≤ ProjectDetail.currentSlide d < array_length (ProjectDetail.slides p) →
     0 ≤ ProjectDetail.currentSlide (k p d)
       < array_length (ProjectDetail.slides p)) →
  Page.slide_in_range s → Page.slide_in_range (Page.on_detail s k).
Proof.
  unfold Page.slide_in_range, Page.on_detail. intros Hk.
  destruct (App.selectedProject (Page.app s)) as [p|] eqn:Hp;
    [|by rewrite ?Hp].
  destruct (Page.detail s) as [d|] eqn:Hd; simpl; rewrite ?Hp, ?Hd;
    [apply Hk | done].
Qed.

(** As long as the project shown stays the same, the index stays in range. *)
Lemma step_in_range_same_project (s : Page.State) (ev : Page.Event) :
  App.selectedProject (Page.app (Page.step s ev))
    = App.selectedProject (Page.app s) →
  Page.slide_in_range s → Page.slide_in_range (Page.step s ev).
Proof.
  destruct ev; simpl.
  - case_bool_decide; [|done]. simpl. intros. by apply render_in_range.
  - destruct (_ !! _); [|done]. simpl. intros. by apply render_in_range.
  - destruct (App.isModalOpen _); [|done].
    destruct (App.handleNavigate _ _); [|done].
    simpl. intros. by apply render_in_range.
  - destruct (App.isModalOpen _); [|done].
    simpl. intros. by apply render_in_range.
  - intros _. apply on_detail_in_range. intros p d H.
    destruct (Page.has_slide_buttons p); [by apply nextSlide_in_range | done].
  - intros _. apply on_detail_in_range. intros p d H.
    destruct (Page.has_slide_buttons p); [by apply prevSlide_in_range | done].
  - intros _. by apply on_detail_in_range.
  - intros _. apply on_detail_in_range. intros p d H.
    by rewrite handleTouchMove_currentSlide.
  - intros _. apply on_detail_in_range. intros p d H.
    by apply handleTouchEnd_in_range.
  - simpl. intros. by apply render_in_range.
Qed.

(** C8 on the code: a reachable state whose slide index is no index of the
    slide list.  With a three-image project followed by a project without
    images: open the first, press the next-slide button twice, press the
    Header's next-project button.  The gallery instance is kept, its index is
    still 2, and the project now shown has one slide (its thumbnail), so
    [slides[currentSlide]] is [undefined]. *)
Theorem C8_stale_slide_index_after_project_navigation :
  let s := Page.run (Page.loaded Sample.gallery_content)
             [Page.ClickCard 0; Page.ClickNextSlide; Page.ClickNextSlide;
              Page.ClickNavigate next] in
  ∃ d, App.selectedProject (Page.app s) = Some Sample.flyer
       ∧ Page.detail s = Some d
       ∧ array_length (ProjectDetail.slides Sample.flyer) = 1
       ∧ ProjectDetail.currentSlide d = 2
       ∧ ProjectDetail.current_slide Sample.flyer d = None
       ∧ ¬ Page.slide_in_range s.
Proof.
  eexists. repeat split; try (vm_compute; reflexivity).
  vm_compute. intros [_ H]. discriminate H.
Qed.

(** ** C9: reordering *)

Lemma all_defined_Some {A : Type} (l : list A) :
  AdminControl.all_defined (Some <$> l) = Some l.
Proof. induction l as [|x l IH]; csimpl; [done|]. by rewrite IH. Qed.

Lemma js_read_Some {A : Type} (l : list A) (i : Z) :
  AdminControl.js_read (Some <$> l) i = array_get l i.
Proof.
  unfold AdminControl.js_read, array_get. destruct (i <? 0); [done|].
  rewrite list_lookup_fmap. by destruct (l !! Z.to_nat i).
Qed.

Lemma js_write_Some {A : Type} (l : list A) (i : Z) (x : A) :
  0 ≤ i < array_length l →
  AdminControl.js_write (Some <$> l) i (Some x)
  = Some <$> <[Z.to_nat i := x]> l.
Proof.
  intros [Hlo Hhi]. unfold AdminControl.js_write, array_length in *.
  rewrite length_fmap.
  destruct (Z.ltb_spec i 0); [lia|].
  destruct (Z.ltb_spec i (Z.of_nat (length l))); [|lia].
  by rewrite list_fmap_insert.
Qed.

(** Inside the array, [moveProject] stores the list with the two entries
    exchanged. *)
Lemma moveProject_exchange (d : SiteContent.t) (i t : Z) (a b : Project.t)
    (direction : AdminControl.MoveDirection) :
  t = match direction with
      | AdminControl.up => i - 1
      | AdminControl.down => i + 1
      end →
  array_get (SiteContent.projects d) i = Some a →
  array_get (SiteContent.projects d) t = Some b →
  AdminControl.moveProject i direction d
  = AdminControl.SetDraftContent
      (AdminControl.with_projects
         (<[Z.to_nat t := a]> (<[Z.to_nat i := b]> (SiteContent.projects d)))
         d).
Proof.
  intros Ht Ha Hb. unfold AdminControl.moveProject.
  apply array_get_Some in Ha as [Hi Ha]. apply array_get_Some in Hb as [Hti Hb].
  pose proof (lookup_lt_Some _ _ _ Ha) as Hli.
  pose proof (lookup_lt_Some _ _ _ Hb) as Hlt.
  assert (match direction with
          | AdminControl.up => i =? 0
          | AdminControl.down => i =? array_length (SiteContent.projects d) - 1
          end = false) as ->.
  { unfold array_length. destruct direction; [apply Z.eqb_neq | apply Z.eqb_neq]; lia. }
  rewrite <- Ht. rewrite !js_read_Some.
  unfold array_get at 1 2.
  destruct (Z.ltb_spec t 0); [lia|]. destruct (Z.ltb_spec i 0); [lia|].
  rewrite Ha, Hb.
  rewrite js_write_Some by (unfold array_length; lia).
  rewrite js_write_Some by (unfold array_length; rewrite length_insert; lia).
  by rewrite all_defined_Some.
Qed.

(** C9.  For the project at index [i] of the draft's list of [n] projects:
    moving the first one up, or the last one down, returns without touching
    the draft; otherwise moving up stores a draft whose project list has the
    occupants of [i] and [i-1] exchanged, and moving down one with those of
    [i] and [i+1] exchanged, every other position keeping its occupant, and
    the rest of the draft is as before. *)
Theorem C9_move_project_swaps_adjacent (d : SiteContent.t) (i : Z) :
  0 ≤ i < array_length (SiteContent.projects d) →
  let ps := SiteContent.projects d in
  let n := array_length ps in
  let exchanged (d' : SiteContent.t) (t : Z) :=
    array_get (SiteContent.projects d') t = array_get ps i
    ∧ array_get (SiteContent.projects d') i = array_get ps t
    ∧ (∀ k, k ≠ i → k ≠ t →
         array_get (SiteContent.projects d') k = array_get ps k)
    ∧ array_length (SiteContent.projects d') = n
    ∧ d' = AdminControl.with_projects (SiteContent.projects d') d in
  (i = 0 → AdminControl.moveProject i AdminControl.up d = AdminControl.NoCall)
  ∧ (i = n - 1 →
     AdminControl.moveProject i AdminControl.down d = AdminControl.NoCall)
  ∧ (0 < i → ∃ d',
       AdminControl.moveProject i AdminControl.up d
         = AdminControl.SetDraftContent d'
       ∧ exchanged d' (i - 1))
  ∧ (i < n - 1 → ∃ d',
       AdminControl.moveProject i AdminControl.down d
         = AdminControl.SetDraftContent d'
       ∧ exchanged d' (i + 1)).
Proof.
  intros Hi ps n exchanged.
  assert (∀ direction t,
            t = match direction with
                | AdminControl.up => i - 1
                | AdminControl.down => i + 1
                end →
            0 ≤ t < n →
            ∃ d', AdminControl.moveProject i direction d
                    = AdminControl.SetDraftContent d'
                  ∧ exchanged d' t) as Hswap.
  { intros direction t Ht Hrange.
    destruct (array_get_in_range ps i Hi) as [a Ha].
    destruct (array_get_in_range ps t Hrange) as [b Hb].
    eexists. split; [by eapply moveProject_exchange|].
    subst exchanged. simpl. fold ps. rewrite Ha, Hb.
    apply array_get_Some in Ha as [_ Ha]. apply array_get_Some in Hb as [_ Hb].
    pose proof (lookup_lt_Some _ _ _ Ha). pose proof (lookup_lt_Some _ _ _ Hb).
    assert (t ≠ i) by (destruct direction; lia).
    repeat split.
    - apply array_get_Some. split; [lia|].
      apply list_lookup_insert_eq. rewrite length_insert. done.
    - apply array_get_Some. split; [lia|].
      rewrite list_lookup_insert_ne by lia.
      by apply list_lookup_insert_eq.
    - intros k Hki Hkt. unfold array_get. destruct (Z.ltb_spec k 0); [done|].
      rewrite !list_lookup_insert_ne by lia. done.
    - unfold array_length. by rewrite !length_insert. }
  split; [|split; [|split]].
  - intros ->. reflexivity.
  - intros ->. unfold AdminControl.moveProject. fold ps n.
    by rewrite Z.eqb_refl.
  - intros. apply (Hswap AdminControl.up); [done | unfold n, ps in *; lia].
  - intros. apply (Hswap AdminControl.down); [done | unfold n, ps in *; lia].
Qed.

Lemma C9_move_project_swaps_adjacent_witness :
  AdminControl.moveProject 0 AdminControl.down Sample.gallery_content
    = AdminControl.SetDraftContent
        (SiteContent.mk None None [Sample.flyer; Sample.poster] [] "studio@example.org")
  ∧ AdminControl.moveProject 0 AdminControl.up Sample.gallery_content
    = AdminControl.NoCall.
Proof.
  assert (0 ≤ 0 < array_length (SiteContent.projects Sample.gallery_content)) as H
    by (vm_compute; split; congruence).
  split.
  - reflexivity.
  - apply (C9_move_project_swaps_adjacent Sample.gallery_content 0 H). reflexivity.
Defined.

(** ** C7: identifiers *)

Lemma NoDup_exchange {A : Type} (l : list A) (i t : nat) (a b : A) :
  l !! i = Some a → l !! t = Some b →
  NoDup l → NoDup (<[t := a]> (<[i := b]> l)).
Proof.
  intros Ha Hb Hnd.
  pose proof (lookup_lt_Some _ _ _ Ha) as Hli.
  pose proof (lookup_lt_Some _ _ _ Hb) as Hlt.
  set (swap k := if decide (k = t) then i else if decide (k = i) then t else k).
  assert (∀ k, <[t := a]> (<[i := b]> l) !! k = l !! swap k) as Hlook.
  { intros k. unfold swap. destruct (decide (k = t)) as [->|].
    - rewrite list_lookup_insert_eq by (by rewrite length_insert). done.
    - rewrite list_lookup_insert_ne by done.
      destruct (decide (k = i)) as [->|].
      + by rewrite list_lookup_insert_eq.
      + by rewrite list_lookup_insert_ne. }
  apply NoDup_alt. intros k1 k2 x H1 H2. rewrite Hlook in H1, H2.
  assert (swap k1 = swap k2) as E by (eapply NoDup_lookup; eauto).
  unfold swap in E. repeat case_decide; congruence.
Qed.

Lemma project_ids_update (id : string) (f : AdminControl.ProjectField)
    (d : SiteContent.t) :
  (∀ v, f ≠ AdminControl.field_id v) →
  AdminControl.project_ids (AdminControl.updateProject id f d) = AdminControl.project_ids d
  ∧ AdminControl.exhibition_ids (AdminControl.updateProject id f d) = AdminControl.exhibition_ids d.
Proof.
  intros Hf. split; [|done]. unfold AdminControl.project_ids. simpl.
  rewrite <- list_fmap_compose. apply list_fmap_ext. intros _ p _. simpl.
  case_bool_decide; [|done].
  destruct p, f; simpl; try done. by destruct (Hf value).
Qed.

Lemma exhibition_ids_update (id : string) (f : AdminControl.ExhibitionField)
    (d : SiteContent.t) :
  (∀ v, f ≠ AdminControl.ex_id v) →
  AdminControl.exhibition_ids (AdminControl.updateExhibition id f d) = AdminControl.exhibition_ids d
  ∧ AdminControl.project_ids (AdminControl.updateExhibition id f d) = AdminControl.project_ids d.
Proof.
  intros Hf. split; [|done]. unfold AdminControl.exhibition_ids. simpl.
  rewrite <- list_fmap_compose. apply list_fmap_ext. intros _ e _. simpl.
  case_bool_decide; [|done].
  destruct e, f; simpl; try done. by destruct (Hf value).
Qed.

Lemma NoDup_fmap_filter {A B : Type} (g : A → B) (P : A → Prop)
    `{!∀ x, Decision (P x)} (l : list A) :
  NoDup (g <$> l) → NoDup (g <$> filter P l).
Proof.
  intros Hnd. eapply sublist_NoDup; [exact Hnd|].
  apply fmap_sublist, sublist_filter.
Qed.

Lemma moveProject_unique (i : Z) (direction : AdminControl.MoveDirection)
    (d d' : SiteContent.t) :
  AdminControl.moveProject i direction d = AdminControl.SetDraftContent d' →
  0 ≤ i < array_length (SiteContent.projects d) →
  AdminControl.unique_ids d → AdminControl.unique_ids d'.
Proof.
  intros Hmove Hi [Hp He].
  set (t := match direction with
            | AdminControl.up => i - 1
            | AdminControl.down => i + 1
            end).
  assert (0 ≤ t < array_length (SiteContent.projects d)) as Ht.
  { unfold AdminControl.moveProject in Hmove. subst t.
    destruct direction.
    - destruct (Z.eqb_spec i 0); [done | lia].
    - destruct (Z.eqb_spec i (array_length (SiteContent.projects d) - 1));
        [done | lia]. }
  destruct (array_get_in_range _ i Hi) as [a Ha].
  destruct (array_get_in_range _ t Ht) as [b Hb].
  rewrite (moveProject_exchange d i t a b direction eq_refl Ha Hb) in Hmove.
  injection Hmove as <-. split; [|done].
  unfold AdminControl.project_ids. simpl. rewrite !list_fmap_insert.
  apply array_get_Some in Ha as [_ Ha]. apply array_get_Some in Hb as [_ Hb].
  apply NoDup_exchange; [| |done]; rewrite list_lookup_fmap;
    [by rewrite Ha | by rewrite Hb].
Qed.

(** C7 (as the code has it).  A new project or exhibition is put in front
    with the decimal rendering of the clock's millisecond reading as its
    identifier, and no handler checks identifiers.  From a draft whose project
    identifiers and whose exhibition identifiers are pairwise distinct, every
    editing handler that stores a draft stores one with that property again,
    on the condition, for the two add handlers, that the new identifier is
    not yet an identifier of the collection. *)
Theorem C7_editing_keeps_identifiers_distinct (d : SiteContent.t) :
  AdminControl.unique_ids d →
  (∀ now fullYear,
     AdminControl.project_ids (AdminControl.addProject now fullYear d)
       = pretty now :: AdminControl.project_ids d
     ∧ (pretty now ∉ AdminControl.project_ids d →
        AdminControl.unique_ids (AdminControl.addProject now fullYear d)))
  ∧ (∀ now iso,
     AdminControl.exhibition_ids (AdminControl.addExhibition now iso d)
       = pretty now :: AdminControl.exhibition_ids d
     ∧ (pretty now ∉ AdminControl.exhibition_ids d →
        AdminControl.unique_ids (AdminControl.addExhibition now iso d)))
  ∧ (∀ ev d',
     AdminControl.edit ev d = AdminControl.SetDraftContent d' →
     match ev with
     | AdminControl.ClickAddProject now _ => pretty now ∉ AdminControl.project_ids d
     | AdminControl.ClickAddExhibition now _ => pretty now ∉ AdminControl.exhibition_ids d
     | _ => True
     end →
     AdminControl.unique_ids d').
Proof.
  intros [Hp He].
  assert (∀ now fullYear, pretty now ∉ AdminControl.project_ids d →
            AdminControl.unique_ids (AdminControl.addProject now fullYear d)) as Hadd_p.
  { intros now fullYear Hfresh. split; [|done].
    unfold AdminControl.project_ids. simpl. by apply NoDup_cons. }
  assert (∀ now iso, pretty now ∉ AdminControl.exhibition_ids d →
            AdminControl.unique_ids (AdminControl.addExhibition now iso d)) as Hadd_e.
  { intros now iso Hfresh. split; [done|].
    unfold AdminControl.exhibition_ids. simpl. by apply NoDup_cons. }
  split; [intros; split; [done | apply Hadd_p]|].
  split; [intros; split; [done | apply Hadd_e]|].
  assert (∀ id f, (∀ v, f ≠ AdminControl.field_id v) →
            AdminControl.unique_ids (AdminControl.updateProject id f d)) as Hupd_p.
  { intros id f Hf. destruct (project_ids_update id f d Hf) as [E1 E2].
    unfold AdminControl.unique_ids. by rewrite E1, E2. }
  assert (∀ id f, (∀ v, f ≠ AdminControl.ex_id v) →
            AdminControl.unique_ids (AdminControl.updateExhibition id f d)) as Hupd_e.
  { intros id f Hf. destruct (exhibition_ids_update id f d Hf) as [E1 E2].
    unfold AdminControl.unique_ids. by rewrite E1, E2. }
  intros ev d' Hedit Hfresh.
  destruct ev; simpl in Hedit; try discriminate Hedit;
    try (injection Hedit as <-);
    try (destruct (SiteContent.projects d !! card) as [p|] eqn:Hcard;
         [|discriminate Hedit]);
    try (destruct (SiteContent.exhibitions d !! card) as [e|] eqn:Hcard;
         [|discriminate Hedit]).
  - by split.
  - by split.
  - by split.
  - by apply Hadd_p.
  - destruct f; simpl in Hedit; try discriminate Hedit;
      injection Hedit as <-; by apply Hupd_p.
  - eapply moveProject_unique; [exact Hedit | | by split].
    pose proof (lookup_lt_Some _ _ _ Hcard). unfold array_length. lia.
  - destruct confirmed; simpl in Hedit; [|discriminate Hedit].
    injection Hedit as <-. split; [|done].
    unfold AdminControl.project_ids. simpl. by apply NoDup_fmap_filter.
  - case_bool_decide as Hidx; [|discriminate Hedit].
    destruct Hidx as [img Himg]. unfold AdminControl.changeImageUrl in Hedit.
    rewrite Himg in Hedit. injection Hedit as <-. by apply Hupd_p.
  - case_bool_decide as Hidx; [|discriminate Hedit].
    destruct Hidx as [img Himg]. unfold AdminControl.changeImageAlt in Hedit.
    rewrite Himg in Hedit. injection Hedit as <-. by apply Hupd_p.
  - case_bool_decide; [|discriminate Hedit].
    injection Hedit as <-. by apply Hupd_p.
  - injection Hedit as <-. by apply Hupd_p.
  - by apply Hadd_e.
  - destruct f; simpl in Hedit; try discriminate Hedit;
      injection Hedit as <-; by apply Hupd_e.
  - destruct confirmed; simpl in Hedit; [|discriminate Hedit].
    injection Hedit as <-. split; [done|].
    unfold AdminControl.exhibition_ids. simpl. by apply NoDup_fmap_filter.
Qed.

Lemma C7_editing_keeps_identifiers_distinct_witness :
  AdminControl.unique_ids (AdminControl.addProject 1700000000000 2023 Sample.gallery_content).
Proof.
  assert (AdminControl.unique_ids Sample.gallery_content) as H.
  { split; vm_compute; [|constructor].
    apply NoDup_cons. split; [|apply NoDup_singleton].
    intros Hin. apply list_elem_of_singleton in Hin. discriminate Hin. }
  apply (C7_editing_keeps_identifiers_distinct Sample.gallery_content H).
  vm_compute. intros Hin.
  apply elem_of_cons in Hin as [Hin | Hin]; [discriminate Hin|].
  apply list_elem_of_singleton in Hin. discriminate Hin.
Defined.

(** The claim as stated fails: two projects added at one clock reading get
    the same identifier. *)
Lemma C7_counterexample_same_millisecond :
  let d1 := AdminControl.addProject 1700000000000 2023 Sample.empty_content in
  AdminControl.unique_ids Sample.empty_content
  ∧ AdminControl.unique_ids d1
  ∧ ¬ AdminControl.unique_ids (AdminControl.addProject 1700000000000 2023 d1).
Proof.
  split; [split; constructor|].
  split; [split; vm_compute; [apply NoDup_singleton | constructor]|].
  intros [H _]. vm_compute in H.
  apply NoDup_cons in H as [H _]. apply H. by left.
Qed.

(** ** The handlers of rendered controls store well-formed drafts *)

Lemma edit_stores_or_returns (ev : AdminControl.Event) (d : SiteContent.t) :
  AdminControl.edit ev d = AdminControl.NoCall
  ∨ ∃ d', AdminControl.edit ev d = AdminControl.SetDraftContent d'.
Proof.
  destruct ev; simpl; eauto;
    try (destruct (SiteContent.projects d !! card) as [p|] eqn:Hcard;
         [|by left]);
    try (destruct (SiteContent.exhibitions d !! card) as [e|] eqn:Hcard;
         [|by left]).
  - destruct (AdminControl.project_input f); eauto.
  - pose proof (lookup_lt_Some _ _ _ Hcard) as Hlt.
    unfold AdminControl.moveProject.
    set (i := Z.of_nat card).
    set (t := match direction with
              | AdminControl.up => i - 1
              | AdminControl.down => i + 1
              end).
    destruct (match direction with
              | AdminControl.up => i =? 0
              | AdminControl.down =>
                  i =? array_length (SiteContent.projects d) - 1
              end) eqn:Hguard; [by left|].
    right.
    assert (0 ≤ i < array_length (SiteContent.projects d)) as Hi
      by (unfold array_length; lia).
    assert (0 ≤ t < array_length (SiteContent.projects d)) as Ht.
    { subst t. destruct direction; apply Z.eqb_neq in Hguard; lia. }
    destruct (array_get_in_range _ i Hi) as [a Ha].
    destruct (array_get_in_range _ t Ht) as [b Hb].
    pose proof (moveProject_exchange d i t a b direction eq_refl Ha Hb) as E.
    unfold AdminControl.moveProject in E. fold i in E. rewrite Hguard in E.
    eauto.
  - destruct confirmed; simpl; eauto.
  - case_bool_decide as Hidx; [|by left]. destruct Hidx as [img Himg].
    unfold AdminControl.changeImageUrl. rewrite Himg. eauto.
  - case_bool_decide as Hidx; [|by left]. destruct Hidx as [img Himg].
    unfold AdminControl.changeImageAlt. rewrite Himg. eauto.
  - case_bool_decide; eauto.
  - eauto.
  - destruct (AdminControl.exhibition_input f); eauto.
  - destruct confirmed; simpl; eauto.
Qed.

Section Editor.

Variable JSON_parse : string → Completion JSON.value.
Variable JSON_copy : JSON.value → JSON.value.
Variable unshaped_edit : AdminControl.Event → JSON.value → Dynamic.t.

#[local] Abbreviation step :=
  (AdminControl.step JSON_parse JSON_copy unshaped_edit).
#[local] Abbreviation run :=
  (AdminControl.run JSON_parse JSON_copy unshaped_edit).
#[local] Abbreviation handleImport_onload :=
  (AdminControl.handleImport_onload JSON_parse).

(** ** C2: import *)

(** C2 (as the code has it).  When the text read is not empty and
    [JSON.parse] throws on it, the handler returns normally, the draft and
    every other state cell are as before, and one alert "Invalid JSON file"
    has been shown.  When the text is not empty and [JSON.parse] returns a
    value, the handler returns normally and the draft is that value, whatever
    the draft was before; nothing else changes.  When the text is empty the
    handler returns at once: nothing changes and no alert is shown. *)
Theorem C2_import_replaces_draft_or_alerts (text : string)
    (s : AdminControl.State) :
  (text ≠ "" → ∀ message, JSON_parse text = Thrown message →
     ∃ s', handleImport_onload text s = Returned s'
           ∧ AdminControl.draftContent s' = AdminControl.draftContent s
           ∧ AdminControl.content s' = AdminControl.content s
           ∧ AdminControl.isOpen s' = AdminControl.isOpen s
           ∧ AdminControl.activeTab s' = AdminControl.activeTab s
           ∧ AdminControl.alerts s'
             = AdminControl.alerts s ++ ["Invalid JSON file"])
  ∧ (text ≠ "" → ∀ parsed, JSON_parse text = Returned parsed →
     handleImport_onload text s
       = Returned (AdminControl.setDraftContent (Dynamic.of_JSON parsed) s)
     ∧ ∀ s0, AdminControl.draftContent
               (AdminControl.setDraftContent (Dynamic.of_JSON parsed) s0)
             = Dynamic.of_JSON parsed)
  ∧ (text = "" → handleImport_onload text s = Returned s).
Proof.
  unfold AdminControl.handleImport_onload.
  split; [|split].
  - intros Hne message Hthrow. destruct text; [done|]. rewrite Hthrow.
    eexists. split; [reflexivity|]. done.
  - intros Hne parsed Hparsed. destruct text; [done|]. rewrite Hparsed. done.
  - intros ->. done.
Qed.

(** ** C1: draft isolation *)

Lemma apply_edit_content (s : AdminControl.State) (ev : AdminControl.Event) :
  AdminControl.content (AdminControl.apply_edit unshaped_edit ev s)
  = AdminControl.content s.
Proof.
  unfold AdminControl.apply_edit.
  destruct (AdminControl.draftContent s) as [d|j]; [|done].
  by destruct (AdminControl.edit ev d).
Qed.

Lemma step_content (s : AdminControl.State) (ev : AdminControl.Event) :
  AdminControl.content (step s ev) = AdminControl.content s
  ∨ (ev = AdminControl.ClickClose ∧ AdminControl.isOpen s = true
     ∧ AdminControl.content (step s ev) = AdminControl.draftContent s).
Proof.
  unfold AdminControl.step.
  destruct ev;
    try (left; destruct (AdminControl.isOpen s && _);
         [apply apply_edit_content | done]).
  - left. by destruct (AdminControl.isOpen s).
  - destruct (AdminControl.isOpen s) eqn:E; [right | left]; done.
  - left. by destruct (AdminControl.isOpen s).
  - by left.
  - left. unfold AdminControl.handleImport_onload.
    destruct result; [done|]. by destruct (JSON_parse _).
Qed.

Lemma run_content (s : AdminControl.State) (evs : list AdminControl.Event) :
  forallb (λ ev, negb (AdminControl.is_close ev)) evs = true →
  AdminControl.content (run s evs) = AdminControl.content s.
Proof.
  revert s. induction evs as [|ev evs IH]; intros s Hevs; [done|].
  simpl in Hevs. apply andb_true_iff in Hevs as [Hev Hevs].
  unfold AdminControl.run in *. simpl. rewrite IH by done.
  destruct (step_content s ev) as [E | (-> & _)]; [done | discriminate Hev].
Qed.

(** C1.  Whatever [JSON.parse] and the JSON copy do and whatever the
    handlers leave in a draft of another shape: every event other than
    pressing Close leaves the published content as it is; so does every
    sequence of such events that follows pressing Open; pressing Open puts
    the JSON copy of the published content into the draft, which is the
    published content itself when that has the declared shape; and pressing
    Close on the open editor publishes the draft of that moment, whole, in
    one step, and closes the editor. *)
Theorem C1_draft_isolation (s : AdminControl.State)
    (evs : list AdminControl.Event) :
  (∀ ev, AdminControl.is_close ev = false →
     AdminControl.content (step s ev) = AdminControl.content s)
  ∧ (forallb (λ ev, negb (AdminControl.is_close ev)) evs = true →
     AdminControl.content (run (step s AdminControl.ClickOpen) evs)
       = AdminControl.content s)
  ∧ (AdminControl.isOpen s = false →
     AdminControl.isOpen (step s AdminControl.ClickOpen) = true
     ∧ AdminControl.draftContent (step s AdminControl.ClickOpen)
       = match AdminControl.content s with
         | Dynamic.Shaped c => Dynamic.Shaped c
         | Dynamic.Unshaped j => Dynamic.of_JSON (JSON_copy j)
         end)
  ∧ (AdminControl.isOpen s = true →
     AdminControl.content (step s AdminControl.ClickClose)
       = AdminControl.draftContent s
     ∧ AdminControl.draftContent (step s AdminControl.ClickClose)
       = AdminControl.draftContent s
     ∧ AdminControl.isOpen (step s AdminControl.ClickClose) = false).
Proof.
  split; [|split; [|split]].
  - intros ev Hev.
    destruct (step_content s ev) as [E | (-> & _)]; [done | discriminate Hev].
  - intros Hevs. rewrite run_content by done.
    destruct (step_content s AdminControl.ClickOpen) as [E | (? & _)]; done.
  - intros Hclosed. simpl. by rewrite Hclosed.
  - intros Hopen. simpl. by rewrite Hopen.
Qed.

End Editor.

(** Open the editor, delete the first project (confirmed), import a file
    that is not JSON, edit the contact address: the published content is
    still the initial one.  Close: it is the draft, without that project. *)
Lemma C1_draft_isolation_witness :
  let evs := [AdminControl.ClickDeleteProject 0 true;
              AdminControl.FileLoaded "not json";
              AdminControl.ClickTab AdminControl.tab_settings;
              AdminControl.ChangeContactEmail "new@example.org"] in
  let opened :=
    AdminControl.step JSON.parse AdminControl.copies_unchanged
      AdminControl.throws_on_unshaped
      (AdminControl.closed_editor Sample.gallery_content)
      AdminControl.ClickOpen in
  let edited :=
    AdminControl.run JSON.parse AdminControl.copies_unchanged
      AdminControl.throws_on_unshaped opened evs in
  AdminControl.draftContent opened = Dynamic.Shaped Sample.gallery_content
  ∧ AdminControl.content edited = Dynamic.Shaped Sample.gallery_content
  ∧ AdminControl.alerts edited = ["Invalid JSON file"]
  ∧ AdminControl.content
      (AdminControl.step JSON.parse AdminControl.copies_unchanged
         AdminControl.throws_on_unshaped edited AdminControl.ClickClose)
    = Dynamic.Shaped
        (SiteContent.mk None None [Sample.flyer] [] "new@example.org").
Proof.
  intros evs opened edited.
  split; [|split; [|split; [reflexivity|]]].
  - destruct (C1_draft_isolation JSON.parse AdminControl.copies_unchanged
                AdminControl.throws_on_unshaped
                (AdminControl.closed_editor Sample.gallery_content) [])
      as (_ & _ & Hopen & _).
    exact (proj2 (Hopen eq_refl)).
  - destruct (C1_draft_isolation JSON.parse AdminControl.copies_unchanged
                AdminControl.throws_on_unshaped
                (AdminControl.closed_editor Sample.gallery_content) evs)
      as (_ & Hrun & _).
    exact (Hrun eq_refl).
  - destruct (C1_draft_isolation JSON.parse AdminControl.copies_unchanged
                AdminControl.throws_on_unshaped edited [])
      as (_ & _ & _ & Hclose).
    destruct (Hclose eq_refl) as (Hpublished & _).
    rewrite Hpublished. reflexivity.
Defined.

(** A file that is not JSON: the draft stays and the alert is shown.  A
    content file: the draft is its content. *)
Lemma C2_import_replaces_draft_or_alerts_witness :
  (∃ s', AdminControl.handleImport_onload JSON.parse "{oops"
           (AdminControl.closed_editor Sample.gallery_content) = Returned s'
         ∧ AdminControl.draftContent s'
           = Dynamic.Shaped Sample.gallery_content
         ∧ AdminControl.alerts s' = ["Invalid JSON file"])
  ∧ AdminControl.handleImport_onload JSON.parse Sample.minimal_file
      (AdminControl.closed_editor Sample.gallery_content)
    = Returned
        (AdminControl.setDraftContent (Dynamic.Shaped Sample.empty_content)
           (AdminControl.closed_editor Sample.gallery_content)).
Proof.
  split.
  - destruct (C2_import_replaces_draft_or_alerts JSON.parse "{oops"
                (AdminControl.closed_editor Sample.gallery_content))
      as (Hbad & _ & _).
    destruct (Hbad ltac:(discriminate) "SyntaxError" eq_refl)
      as (s' & Hs' & Hd & _ & _ & _ & Ha).
    exists s'. split; [exact Hs'|]. split; [exact Hd | exact Ha].
  - destruct (C2_import_replaces_draft_or_alerts JSON.parse
                Sample.minimal_file
                (AdminControl.closed_editor Sample.gallery_content))
      as (_ & Hgood & _).
    exact (proj1 (Hgood ltac:(discriminate)
                    (JSON.JObject
                       [("projects", JSON.JArray []);
                        ("exhibitions", JSON.JArray []);
                        ("contactEmail", JSON.JString "studio@example.org")])
                    eq_refl)).
Defined.

(** The claim as stated fails on the empty file: its text is not JSON
    ([JSON.parse] throws on it), and the import shows no alert. *)
Lemma C2_counterexample_empty_file :
  JSON.parse "" = Thrown "SyntaxError"
  ∧ ∃ s', AdminControl.handleImport_onload JSON.parse ""
            (AdminControl.closed_editor Sample.gallery_content) = Returned s'
          ∧ AdminControl.alerts s' = [].
Proof. split; [reflexivity|]. eexists. split; reflexivity. Qed.

(** * Further properties of the code *)

(** ** The category filter *)

Lemma distinct_from_spec (seen l : list string) :
  NoDup (Page.distinct_from seen l)
  ∧ Page.distinct_from seen l `sublist_of` l
  ∧ ∀ x, x ∈ Page.distinct_from seen l ↔ x ∈ l ∧ x ∉ seen.
Proof.
  revert seen. induction l as [|y l IH]; intros seen; simpl.
  - split; [constructor|]. split; [constructor|].
    intros x. split; [intros H; inversion H | intros [H _]; inversion H].
  - case_bool_decide as Hy.
    + destruct (IH seen) as (Hnd & Hsub & Hin).
      split; [done|]. split; [by constructor|].
      intros x. rewrite Hin, elem_of_cons. split; [tauto|].
      intros [[-> | Hx] Hns]; [done | tauto].
    + destruct (IH (y :: seen)) as (Hnd & Hsub & Hin).
      split.
      { apply NoDup_cons. split; [|done].
        rewrite Hin, elem_of_cons. tauto. }
      split; [by constructor|].
      intros x. rewrite !elem_of_cons, Hin, elem_of_cons.
      split.
      * intros [-> | [Hx Hns]]; [tauto|]. split; [tauto|]. tauto.
      * intros [[-> | Hx] Hns]; [tauto|].
        destruct (decide (x = y)) as [->|]; [tauto|]. right. tauto.
Qed.

Lemma distinct_from_order (seen l : list string) (i j : nat) (x y : string) :
  (i < j)%nat →
  Page.distinct_from seen l !! i = Some x →
  Page.distinct_from seen l !! j = Some y →
  ∃ k, l !! k = Some x ∧ y ∉ take k l.
Proof.
  revert seen i j. induction l as [|c l IH]; intros seen i j Hij Hi Hj.
  { done. }
  simpl in Hi, Hj. case_bool_decide as Hc.
  - destruct (IH seen i j Hij Hi Hj) as (k & Hk & Hy).
    exists (S k). split; [done|]. simpl. apply not_elem_of_cons. split; [|done].
    intros ->.
    destruct (distinct_from_spec seen l) as (_ & _ & Hin).
    assert (c ∈ Page.distinct_from seen l) as Hcin
      by (by eapply list_elem_of_lookup_2).
    apply Hin in Hcin as [_ Hns]. done.
  - destruct j as [|j]; [lia|]. simpl in Hj.
    destruct i as [|i]; simpl in Hi.
    + injection Hi as <-. exists 0%nat. split; [done|]. apply not_elem_of_nil.
    + destruct (IH (c :: seen) i j ltac:(lia) Hi Hj) as (k & Hk & Hy).
      exists (S k). split; [done|]. simpl.
      apply not_elem_of_cons. split; [|done].
      intros ->.
      destruct (distinct_from_spec (c :: seen) l) as (_ & _ & Hin).
      assert (c ∈ Page.distinct_from (c :: seen) l) as Hcin
        by (by eapply list_elem_of_lookup_2).
      apply Hin in Hcin as [_ Hns]. apply Hns. by left.
Qed.

(** X1.  The filter bar.  Its first button is "all"; the buttons after it
    are the categories of the projects, each once, in the order of their
    first occurrence in the project list: of two categories on the bar, the
    one further left occurs in the project list at a place before which the
    other does not occur.  Without content the bar is "all" alone. *)
Theorem categories_are_the_distinct_project_categories (a : App.State) :
  match App.content a with
  | None => Page.categories a = ["all"]
  | Some c =>
      let cats := Project.category <$> SiteContent.projects c in
      ∃ rest,
        Page.categories a = "all" :: rest
        ∧ NoDup rest
        ∧ rest `sublist_of` cats
        ∧ (∀ x, x ∈ rest
                ↔ ∃ p, p ∈ SiteContent.projects c ∧ Project.category p = x)
        ∧ (∀ (i j : nat) x y, (i < j)%nat →
             rest !! i = Some x → rest !! j = Some y →
             ∃ k : nat, cats !! k = Some x ∧ y ∉ take k cats)
  end.
Proof.
  unfold Page.categories. destruct (App.content a) as [c|]; [|done].
  cbv zeta. set (cats := Project.category <$> SiteContent.projects c).
  destruct (distinct_from_spec [] cats) as (Hnd & Hsub & Hin).
  eexists. split; [reflexivity|]. split; [done|]. split; [done|]. split.
  - intros x. rewrite Hin. unfold cats. rewrite list_elem_of_fmap. split.
    + intros [(p & -> & Hp) _]. eauto.
    + intros (p & Hp & <-). split; [eauto | apply not_elem_of_nil].
  - intros i j x y. apply distinct_from_order.
Qed.

(** X2.  Every filter button other than "all" shows at least one project, and a
    category that is on no button shows none. *)
Theorem category_button_shows_a_project (a : App.State) (cat : string) :
  cat ≠ "all" →
  (cat ∈ Page.categories a ↔
   App.filteredProjects (App.setActiveCategory cat a) ≠ []).
Proof.
  intros Hcat.
  unfold Page.categories, App.filteredProjects, App.filteredProjects_of.
  simpl.
  destruct (App.content a) as [c|].
  - destruct (distinct_from_spec []
                (Project.category <$> SiteContent.projects c))
      as (_ & _ & Hin).
    rewrite bool_decide_eq_false_2 by done.
    rewrite elem_of_cons, Hin, list_elem_of_fmap. split.
    + intros [-> | [(p & Hpc & Hp) _]]; [done|]. symmetry in Hpc.
      intros Hnil.
      assert (p ∈ filter (λ p, Project.category p = cat)
                    (SiteContent.projects c)) as Hf
        by (by apply list_elem_of_filter).
      rewrite Hnil in Hf. inversion Hf.
    + intros Hne. right.
      destruct (filter _ _) as [|p l] eqn:E; [done|].
      assert (p ∈ filter (λ p, Project.category p = cat)
                    (SiteContent.projects c)) as Hf
        by (rewrite E; by left).
      apply list_elem_of_filter in Hf as [? ?].
      split; [eauto | apply not_elem_of_nil].
  - split; [|done].
    intros H. apply list_elem_of_singleton in H. done.
Qed.

Lemma category_button_shows_a_project_witness :
  App.filteredProjects
    (App.setActiveCategory "digital" Sample.print_selected) ≠ []
  ∧ App.filteredProjects
      (App.setActiveCategory "web" Sample.print_selected) = [].
Proof.
  split.
  - apply (category_button_shows_a_project Sample.print_selected "digital");
      [discriminate|].
    vm_compute. do 2 right. by left.
  - reflexivity.
Defined.

(** ** The detail overlay *)

Lemma selectedProject_None_without_selection (a : App.State) :
  App.selectedProjectId a = None → App.selectedProject a = None.
Proof.
  intros Hsel. unfold App.selectedProject.
  rewrite selectedProjectIndex_absent; [done|].
  intros p _. by rewrite Hsel.
Qed.

Lemma selectedProject_Some_with_selection (a : App.State) (i : nat)
    (p : Project.t) :
  App.filteredProjects a !! i = Some p →
  App.selectedProjectId a = Some (Project.id p) →
  is_Some (App.selectedProject a).
Proof.
  intros Hp Hsel. unfold App.selectedProject.
  apply array_get_in_range.
  destruct (Z.eq_dec (App.selectedProjectIndex a) (-1)) as [E|NE].
  - exfalso.
    destruct (findIndex_spec (App.id_matches (App.selectedProjectId a))
                (App.filteredProjects a)) as [[_ HF] | (x & Hr & _)];
      [|unfold App.selectedProjectIndex in E; lia].
    rewrite Forall_forall in HF.
    assert (App.id_matches (App.selectedProjectId a) p = false) as Hno
      by (apply HF; eapply list_elem_of_lookup_2; eauto).
    assert (App.id_matches (App.selectedProjectId a) p = true)
      by (by apply id_matches_true).
    congruence.
  - by destruct (selectedProjectIndex_found a NE) as (q & Hr & _).
Qed.

(** X3.  Closing the overlay drops the gallery, and the project opened next
    starts at its first slide, with no touch in progress: the slide reached
    before closing is not remembered. *)
Theorem gallery_restarts_after_close (s : Page.State) (i : nat)
    (p : Project.t) :
  App.isModalOpen (Page.app s) = true →
  let closed := Page.step s Page.ClickCloseModal in
  App.filteredProjects (Page.app closed) !! i = Some p →
  Page.detail closed = None
  ∧ Page.detail (Page.step closed (Page.ClickCard i))
    = Some ProjectDetail.initial
  ∧ App.selectedProjectId (Page.app (Page.step closed (Page.ClickCard i)))
    = Some (Project.id p).
Proof.
  intros Hopen closed Hp.
  assert (Page.detail closed = None) as Hnone.
  { subst closed. simpl. rewrite Hopen. simpl. unfold Page.reconcile.
    by rewrite selectedProject_None_without_selection. }
  split; [done|].
  simpl. rewrite Hp. simpl. unfold Page.reconcile.
  destruct (selectedProject_Some_with_selection
              (App.setSelectedProjectId (Some (Project.id p))
                 (Page.app closed)) i p Hp eq_refl) as [q ->].
  by rewrite Hnone.
Qed.

Lemma gallery_restarts_after_close_witness :
  let s := Page.run (Page.loaded Sample.gallery_content)
             [Page.ClickCard 0; Page.ClickNextSlide; Page.ClickNextSlide] in
  (ProjectDetail.currentSlide <$> Page.detail s) = Some 2
  ∧ Page.detail
      (Page.step (Page.step s Page.ClickCloseModal) (Page.ClickCard 1))
    = Some ProjectDetail.initial.
Proof.
  intros s. split; [reflexivity|].
  apply (gallery_restarts_after_close s 1 Sample.flyer); reflexivity.
Defined.

Lemma gallery_event_keeps_app (s : Page.State) (ev : Page.Event) :
  Page.gallery_event ev = true → Page.app (Page.step s ev) = Page.app s.
Proof.
  destruct ev; try discriminate; intros _; simpl; unfold Page.on_detail;
    by destruct (App.selectedProject (Page.app s)), (Page.detail s).
Qed.

(** X4.  The slide buttons and touch gestures alone, in any number and order,
    keep the slide index an index of the slide list, and they change no state
    of [App]. *)
Theorem gallery_events_keep_slide_in_range (s : Page.State)
    (evs : list Page.Event) :
  forallb Page.gallery_event evs = true →
  Page.slide_in_range s →
  Page.slide_in_range (Page.run s evs)
  ∧ Page.app (Page.run s evs) = Page.app s.
Proof.
  revert s. induction evs as [|ev evs IH]; intros s Hevs Hs; [done|].
  simpl in Hevs. apply andb_true_iff in Hevs as [Hev Hevs].
  unfold Page.run in *. simpl.
  pose proof (gallery_event_keeps_app s ev Hev) as Happ.
  destruct (IH (Page.step s ev) Hevs) as [Hr Ha].
  { apply step_in_range_same_project; [by rewrite Happ | done]. }
  split; [done | congruence].
Qed.

Lemma gallery_events_keep_slide_in_range_witness :
  let s := Page.run (Page.loaded Sample.gallery_content) [Page.ClickCard 0] in
  Page.slide_in_range
    (Page.run s [Page.ClickPrevSlide; Page.ClickNextSlide;
                 Page.ClickNextSlide; Page.ClickNextSlide;
                 Page.ClickNextSlide]).
Proof.
  intros s.
  assert (Page.slide_in_range s) as Hs by (vm_compute; split; congruence).
  exact (proj1 (gallery_events_keep_slide_in_range s
                  [Page.ClickPrevSlide; Page.ClickNextSlide;
                   Page.ClickNextSlide; Page.ClickNextSlide;
                   Page.ClickNextSlide] eq_refl Hs)).
Defined.

(** ** A selection that is not in the filtered list *)

(** X5.  When the selected identifier is a non-empty string that no project of
    the filtered list carries (the filter or the content changed under an
    open overlay): no overlay is rendered, yet the Header stays in its
    project-navigation mode and the page scroll stays locked; the counter
    reads "0 / n" (nothing when the list is empty); [handleCloseModal] ends
    this state. *)
Theorem orphaned_selection (a : App.State) (c : ascii) (i : string) :
  App.selectedProjectId a = Some (String c i) →
  String c i ∉ Project.id <$> App.filteredProjects a →
  App.selectedProject a = None
  ∧ App.isModalOpen a = true
  ∧ App.body_overflow a = "hidden"
  ∧ Header.counter_of a
    = (if array_length (App.filteredProjects a) =? 0 then ""
       else "0 / " +:+ pretty (array_length (App.filteredProjects a)))
  ∧ App.isModalOpen (App.handleCloseModal a) = false
  ∧ App.body_overflow (App.handleCloseModal a) = "".
Proof.
  intros Hsel Habs.
  assert (App.selectedProjectIndex a = -1) as Hidx.
  { apply selectedProjectIndex_absent. intros p Hp Hs.
    rewrite Hsel in Hs. injection Hs as Hs. apply Habs. rewrite Hs.
    apply list_elem_of_fmap. eauto. }
  unfold App.selectedProject, App.body_overflow, App.isModalOpen,
    Header.counter_of, Header.counter.
  rewrite Hidx, Hsel. simpl.
  repeat split; try done.
Qed.

Lemma orphaned_selection_witness :
  App.selectedProject Sample.digital_with_print_selected = None
  ∧ App.body_overflow Sample.digital_with_print_selected = "hidden"
  ∧ Header.counter_of Sample.digital_with_print_selected = "0 / 1".
Proof.
  assert ("1" ∉ Project.id
                  <$> App.filteredProjects Sample.digital_with_print_selected)
    as H.
  { vm_compute. intros Hin. apply list_elem_of_singleton in Hin.
    discriminate Hin. }
  destruct (orphaned_selection Sample.digital_with_print_selected
              "1"%char "" eq_refl H) as (H1 & _ & H3 & H4 & _).
  split; [exact H1|]. split; [exact H3|]. rewrite H4. reflexivity.
Defined.

(** ** The Header's project counter *)

(** X6.  When the project at position [k] (from 0) of the filtered list of
    [n] projects carries the selected identifier and no project before it
    does, the counter reads "k+1 / n", and [1 ≤ k+1 ≤ n]. *)
Theorem header_counter_is_position_in_filter (a : App.State) (k : nat)
    (p : Project.t) :
  let fp := App.filteredProjects a in
  let n := array_length fp in
  fp !! k = Some p →
  App.selectedProjectId a = Some (Project.id p) →
  (∀ (j : nat) q, (j < k)%nat → fp !! j = Some q →
                  Project.id q ≠ Project.id p) →
  1 ≤ Z.of_nat k + 1 ≤ n
  ∧ Header.counter_of a = pretty (Z.of_nat k + 1) +:+ " / " +:+ pretty n.
Proof.
  intros fp n Hp Hsel Hfirst.
  assert (1 ≤ Z.of_nat k + 1 ≤ n) as Hk.
  { apply lookup_lt_Some in Hp. unfold n, array_length. lia. }
  split; [done|].
  unfold Header.counter_of, Header.counter.
  rewrite (selectedProjectIndex_first_match a k p) by done.
  fold fp. fold n. destruct (Z.eqb_spec n 0); [lia | done].
Qed.

(** Three projects, the third open: "3 / 3". *)
Lemma header_counter_is_position_in_filter_witness :
  Header.counter_of Sample.last_selected = "3 / 3".
Proof.
  assert (∀ (j : nat) q, (j < 2)%nat →
            App.filteredProjects Sample.last_selected !! j = Some q →
            Project.id q ≠ Project.id Sample.site) as Hfirst.
  { intros j q Hj Hq. destruct j as [|[|j]]; [| |lia];
      injection Hq as <-; discriminate. }
  destruct (header_counter_is_position_in_filter Sample.last_selected 2
              Sample.site eq_refl eq_refl Hfirst) as [_ ->].
  reflexivity.
Defined.

(** ** Slides and their classification *)

Lemma append_nil_l (s : string) : EmptyString +:+ s = s.
Proof. reflexivity. Qed.

Lemma append_cons (c : ascii) (a b : string) :
  String c a +:+ b = String c (a +:+ b).
Proof. reflexivity. Qed.

Lemma append_assoc (a b c : string) : (a +:+ b) +:+ c = a +:+ (b +:+ c).
Proof.
  induction a as [|x a IH]; [done|]. by rewrite !append_cons, IH.
Qed.

Lemma prefix_append (p s : string) :
  String.prefix p s = true ↔ ∃ post, s = p +:+ post.
Proof.
  revert s. induction p as [|a p IH]; intros s.
  - destruct s; simpl; (split; [intros _; by eexists | done]).
  - destruct s as [|b s]; simpl.
    + split; [done | intros [post H]; discriminate H].
    + destruct (ascii_dec a b) as [->|Hne].
      * rewrite IH. split; intros [post H]; exists post;
          rewrite append_cons in *; congruence.
      * split; [done | intros [post H]; rewrite append_cons in H; congruence].
Qed.

Lemma contains_append (needle s : string) :
  ProjectDetail.contains needle s = true
  ↔ ∃ pre post, s = pre +:+ needle +:+ post.
Proof.
  induction s as [|c s IH].
  - cbn [ProjectDetail.contains]. rewrite orb_false_r, prefix_append. split.
    + intros [post H]. by exists EmptyString, post.
    + intros (pre & post & H). destruct pre; [by exists post|discriminate H].
  - cbn [ProjectDetail.contains]. rewrite orb_true_iff, prefix_append, IH.
    split.
    + intros [[post H] | (pre & post & H)].
      * by exists EmptyString, post.
      * exists (String c pre), post. by rewrite append_cons, H.
    + intros (pre & post & H). destruct pre as [|c' pre].
      * left. by exists post.
      * right. exists pre, post. rewrite append_cons in H. congruence.
Qed.

Lemma string_lower_append (a b : string) :
  ProjectDetail.string_lower (a +:+ b)
  = ProjectDetail.string_lower a +:+ ProjectDetail.string_lower b.
Proof.
  induction a as [|c a IH]; [done|].
  rewrite append_cons. simpl. by rewrite append_cons, IH.
Qed.

Lemma string_lower_split (s a b : string) :
  ProjectDetail.string_lower s = a +:+ b →
  ∃ s1 s2, s = s1 +:+ s2 ∧ ProjectDetail.string_lower s1 = a
           ∧ ProjectDetail.string_lower s2 = b.
Proof.
  revert s. induction a as [|c a IH]; intros s H.
  - by exists EmptyString, s.
  - destruct s as [|c' s]; [discriminate H|].
    rewrite append_cons in H. simpl in H.
    injection H as Hc H. destruct (IH s H) as (s1 & s2 & -> & H1 & H2).
    exists (String c' s1), s2. rewrite append_cons. simpl.
    by rewrite Hc, H1.
Qed.

(** X7.  A media reference is classified as a video exactly when it contains,
    in any mix of upper and lower case, [youtube.com/watch?v=] or
    [youtu.be/]. *)
Theorem isYouTubeUrl_iff_contains_host_in_any_case (url : string) :
  ProjectDetail.isYouTubeUrl url = true
  ↔ ∃ pre m post,
      url = pre +:+ m +:+ post
      ∧ (ProjectDetail.string_lower m = "youtube.com/watch?v="
         ∨ ProjectDetail.string_lower m = "youtu.be/").
Proof.
  unfold ProjectDetail.isYouTubeUrl. rewrite orb_true_iff, !contains_append.
  split.
  - intros [(pre & post & H) | (pre & post & H)];
      apply string_lower_split in H as (s1 & s23 & -> & H1 & H23);
      apply string_lower_split in H23 as (s2 & s3 & -> & H2 & H3);
      exists s1, s2, s3; eauto.
  - intros (pre & m & post & -> & [H | H]); [left | right];
      exists (ProjectDetail.string_lower pre), (ProjectDetail.string_lower post);
      by rewrite !string_lower_append, H.
Qed.

(** X8.  The gallery has one slide per image, in the images' order and with their
    addresses and alternative texts; a project without images has exactly
    one slide, its thumbnail; and a slide's type is the image's own type tag
    when that is a non-empty string, else "youtube" or "image" as its address
    is classified. *)
Theorem slides_follow_images_or_thumbnail (p : Project.t) :
  (Project.images p = [] →
     ProjectDetail.slides p
     = [ProjectDetail.mkSlide (Project.thumbnail p) None
          (if ProjectDetail.isYouTubeUrl (Project.thumbnail p)
           then "youtube" else "image")])
  ∧ (Project.images p ≠ [] →
     length (ProjectDetail.slides p) = length (Project.images p)
     ∧ ∀ k img, Project.images p !! k = Some img →
         ∃ slide, ProjectDetail.slides p !! k = Some slide
           ∧ ProjectDetail.url slide = AdminControl.image_url img
           ∧ ProjectDetail.alt slide
             = match img with
               | ImageUrl _ => None
               | ImageObj o => ImageObject.alt o
               end
           ∧ ProjectDetail.type slide
             = match img with
               | ImageObj (ImageObject.mk _ _ (Some (String c t))) =>
                   String c t
               | _ => if ProjectDetail.isYouTubeUrl (AdminControl.image_url img)
                      then "youtube" else "image"
               end)
  ∧ 1 ≤ array_length (ProjectDetail.slides p).
Proof.
  split; [|split; [|apply slides_nonempty]].
  - intros H. unfold ProjectDetail.slides. by rewrite H.
  - intros Hne. unfold ProjectDetail.slides, array_length.
    destruct (Project.images p) as [|i0 imgs] eqn:E; [done|].
    replace (0 <? Z.of_nat (length (i0 :: imgs))) with true
      by (symmetry; apply Z.ltb_lt; simpl; lia).
    split; [by rewrite length_fmap|].
    intros k img Hk. rewrite list_lookup_fmap, Hk. simpl.
    eexists. split; [reflexivity|].
    destruct img as [u | [u a [[|c t]|]]]; simpl; done.
Qed.

Lemma slides_follow_images_or_thumbnail_witness :
  ProjectDetail.slides Sample.flyer
    = [ProjectDetail.mkSlide "t2.png" None "image"]
  ∧ length (ProjectDetail.slides Sample.poster) = 3%nat.
Proof.
  split.
  - apply (slides_follow_images_or_thumbnail Sample.flyer). reflexivity.
  - destruct (slides_follow_images_or_thumbnail Sample.poster)
      as (_ & H & _).
    destruct (H ltac:(discriminate)) as [Hl _]. exact Hl.
Defined.

(** ** The embed address of a video *)

Lemma after_prefix_append (p s r : string) :
  ProjectDetail.after_prefix p s = Some r ↔ s = p +:+ r.
Proof.
  revert s. induction p as [|a p IH]; intros s.
  - simpl. rewrite append_nil_l. split; congruence.
  - destruct s as [|b s]; simpl; rewrite append_cons.
    + split; discriminate.
    + destruct (Ascii.eqb_spec a b) as [->|Hne].
      * rewrite IH. split; congruence.
      * split; [discriminate | congruence].
Qed.

Lemma take_id_spec (k : nat) (s id : string) :
  ProjectDetail.take_id k s = Some id
  ↔ String.length id = k
    ∧ forallb ProjectDetail.is_id_char (list_ascii_of_string id) = true
    ∧ ∃ rest, s = id +:+ rest.
Proof.
  revert s id. induction k as [|k IH]; intros s id; simpl.
  - split.
    + intros [= <-]. split; [done|]. split; [done|]. by exists s.
    + intros (Hl & _ & _). destruct id; [done | discriminate Hl].
  - destruct s as [|c s].
    + split; [discriminate|]. intros (Hl & _ & rest & H).
      destruct id; [discriminate Hl | discriminate H].
    + destruct (ProjectDetail.is_id_char c) eqn:Hc.
      * destruct (ProjectDetail.take_id k s) as [id'|] eqn:E; simpl.
        -- apply IH in E as (Hl & Hf & rest & ->). split.
           ++ intros [= <-]. simpl. rewrite Hc, Hf, Hl.
              split; [done|]. split; [done|]. by exists rest.
           ++ intros (Hl' & Hf' & rest' & H).
              destruct id as [|c' id]; [discriminate Hl'|].
              rewrite append_cons in H. injection H as <- H.
              simpl in Hl', Hf'. apply andb_true_iff in Hf' as [_ Hf'].
              assert (ProjectDetail.take_id k (id' +:+ rest) = Some id) as E'
                by (apply IH; split; [lia|]; split; [done|]; by exists rest').
              assert (ProjectDetail.take_id k (id' +:+ rest) = Some id') as E''
                by (apply IH; split; [done|]; split; [done|]; by exists rest).
              congruence.
        -- split; [discriminate|]. intros (Hl' & Hf' & rest' & H).
           destruct id as [|c' id]; [discriminate Hl'|].
           rewrite append_cons in H. injection H as <- ->.
           simpl in Hl', Hf'. apply andb_true_iff in Hf' as [_ Hf'].
           assert (ProjectDetail.take_id k (id +:+ rest') = Some id) as E'
             by (apply IH; split; [lia|]; split; [done|]; by exists rest').
           congruence.
      * split; [discriminate|]. intros (Hl' & Hf' & rest' & H).
        destruct id as [|c' id]; [discriminate Hl'|].
        rewrite append_cons in H. injection H as <- ->.
        simpl in Hf'. rewrite Hc in Hf'. discriminate Hf'.
Qed.

#[local] Arguments ProjectDetail.take_id : simpl never.

Lemma take_video_id (s id : string) :
  ProjectDetail.take_id 11 s = Some id
  ↔ ProjectDetail.is_video_id id = true ∧ ∃ rest, s = id +:+ rest.
Proof.
  rewrite take_id_spec. unfold ProjectDetail.is_video_id.
  rewrite andb_true_iff, Nat.eqb_eq. tauto.
Qed.

Lemma match_id_here_spec (s id : string) :
  ProjectDetail.match_id_here s = Some id →
  ProjectDetail.is_video_id id = true
  ∧ ∃ m rest, ProjectDetail.id_marker m ∧ s = m +:+ id +:+ rest.
Proof.
  unfold ProjectDetail.match_id_here.
  assert (∀ m, ProjectDetail.id_marker m →
            ProjectDetail.after_prefix m s ≫= ProjectDetail.take_id 11
              = Some id →
            ProjectDetail.is_video_id id = true
            ∧ ∃ m rest, ProjectDetail.id_marker m ∧ s = m +:+ id +:+ rest)
    as Hone.
  { intros m Hm H.
    destruct (ProjectDetail.after_prefix m s) as [r|] eqn:E1;
      [|discriminate H].
    apply after_prefix_append in E1 as ->.
    destruct (proj1 (take_video_id _ _) H) as (Hid & rest & ->).
    split; [done|]. by exists m, rest. }
  destruct (ProjectDetail.after_prefix "v=" s ≫= ProjectDetail.take_id 11)
    as [id'|] eqn:E.
  - intros [= <-]. apply (Hone "v="); [by left | done].
  - apply (Hone "youtu.be/"). by right.
Qed.

Lemma match_id_here_complete (m id rest : string) :
  ProjectDetail.id_marker m → ProjectDetail.is_video_id id = true →
  is_Some (ProjectDetail.match_id_here (m +:+ id +:+ rest)).
Proof.
  intros Hm Hid.
  assert (ProjectDetail.take_id 11 (id +:+ rest) = Some id) as Ht
    by (apply take_video_id; split; [done | by exists rest]).
  unfold ProjectDetail.match_id_here. destruct Hm as [-> | ->].
  - replace (ProjectDetail.after_prefix "v=" ("v=" +:+ id +:+ rest))
      with (Some (id +:+ rest)) by (symmetry; by apply after_prefix_append).
    simpl. rewrite Ht. eauto.
  - destruct (ProjectDetail.after_prefix "v=" _ ≫= _); [eauto|].
    replace (ProjectDetail.after_prefix "youtu.be/"
               ("youtu.be/" +:+ id +:+ rest))
      with (Some (id +:+ rest)) by (symmetry; by apply after_prefix_append).
    simpl. rewrite Ht. eauto.
Qed.

Lemma match_id_sound (s id : string) :
  ProjectDetail.match_id s = Some id →
  ProjectDetail.is_video_id id = true
  ∧ ∃ pre m rest, ProjectDetail.id_marker m ∧ s = pre +:+ m +:+ id +:+ rest.
Proof.
  induction s as [|c s IH]; cbn [ProjectDetail.match_id].
  - destruct (ProjectDetail.match_id_here "") as [id'|] eqn:E; [|discriminate].
    intros [= <-]. apply match_id_here_spec in E as (Hid & m & rest & Hm & H).
    split; [done|]. by exists "", m, rest.
  - destruct (ProjectDetail.match_id_here (String c s)) as [id'|] eqn:E.
    + intros [= <-]. apply match_id_here_spec in E as (Hid & m & rest & Hm & H).
      split; [done|]. by exists "", m, rest.
    + intros H. destruct (IH H) as (Hid & pre & m & rest & Hm & ->).
      split; [done|]. by exists (String c pre), m, rest.
Qed.

Lemma match_id_complete (pre m id rest : string) :
  ProjectDetail.id_marker m → ProjectDetail.is_video_id id = true →
  is_Some (ProjectDetail.match_id (pre +:+ m +:+ id +:+ rest)).
Proof.
  intros Hm Hid. induction pre as [|c pre IH].
  - rewrite append_nil_l.
    destruct (match_id_here_complete m id rest Hm Hid) as [x Hx].
    destruct (m +:+ id +:+ rest); cbn [ProjectDetail.match_id];
      rewrite Hx; eauto.
  - rewrite append_cons. cbn [ProjectDetail.match_id].
    destruct (ProjectDetail.match_id_here _); eauto.
Qed.

(** X9.  [getYouTubeEmbedUrl] finds an address exactly when the reference
    contains [v=] or [youtu.be/] followed by eleven characters of
    [[a-zA-Z0-9_-]]; the address it gives is
    [https://www.youtube.com/embed/] followed by such an identifier taken
    from the reference, whatever follows the eleven characters. *)
Theorem getYouTubeEmbedUrl_finds_an_eleven_character_id (url : string) :
  (is_Some (ProjectDetail.getYouTubeEmbedUrl url)
   ↔ ∃ pre m id rest,
       (m = "v=" ∨ m = "youtu.be/")
       ∧ ProjectDetail.is_video_id id = true
       ∧ url = pre +:+ m +:+ id +:+ rest)
  ∧ ∀ embed, ProjectDetail.getYouTubeEmbedUrl url = Some embed →
      ∃ pre m id rest,
        embed = "https://www.youtube.com/embed/" +:+ id
        ∧ (m = "v=" ∨ m = "youtu.be/")
        ∧ ProjectDetail.is_video_id id = true
        ∧ url = pre +:+ m +:+ id +:+ rest.
Proof.
  unfold ProjectDetail.getYouTubeEmbedUrl.
  assert (∀ id, ProjectDetail.match_id url = Some id →
            ∃ pre m rest, (m = "v=" ∨ m = "youtu.be/")
              ∧ ProjectDetail.is_video_id id = true
              ∧ url = pre +:+ m +:+ id +:+ rest) as Hsound.
  { intros id H. apply match_id_sound in H as (Hid & pre & m & rest & Hm & H).
    by exists pre, m, rest. }
  split; [split|].
  - intros [e He]. destruct (ProjectDetail.match_id url) as [id|] eqn:E;
      [|discriminate He].
    destruct (Hsound id eq_refl) as (pre & m & rest & ? & ? & ?).
    by exists pre, m, id, rest.
  - intros (pre & m & id & rest & Hm & Hid & ->).
    destruct (match_id_complete pre m id rest Hm Hid) as [x ->]. by eexists.
  - intros embed He. destruct (ProjectDetail.match_id url) as [id|] eqn:E;
      [|discriminate He].
    injection He as <-.
    destruct (Hsound id eq_refl) as (pre & m & rest & ? & ? & ?).
    by exists pre, m, id, rest.
Qed.

Lemma match_id_skip (c : ascii) (s : string) :
  ProjectDetail.match_id_here (String c s) = None →
  ProjectDetail.match_id (String c s) = ProjectDetail.match_id s.
Proof. intros H. cbn [ProjectDetail.match_id]. by rewrite H. Qed.

(** X10.  The two usual forms.  A media item whose address is a watch
    address or a short link with an eleven-character identifier, followed by
    anything, is classified as a video by its address, and
    [getYouTubeEmbedUrl] gives [https://www.youtube.com/embed/<identifier>].
    It is rendered as a frame on that address unless the item is an object
    with a non-empty type tag other than "youtube", which is rendered as an
    image of the original address.  The title of the frame (the alternative
    text of the image) is the item's alternative text when that is a
    non-empty string, else "YouTube video n" (resp. "Slide n") for the slide
    at index [n - 1]. *)
Theorem watch_and_short_links_render_as_embeds (id rest : string)
    (currentSlide : Z) (img : ProjectImage) :
  let url := AdminControl.image_url img in
  let embed := "https://www.youtube.com/embed/" +:+ id in
  let caption (default : string) :=
    match img with
    | ImageObj (ImageObject.mk _ (Some (String c a)) _) => String c a
    | _ => default +:+ pretty (currentSlide + 1)
    end in
  ProjectDetail.is_video_id id = true →
  url = "https://www.youtube.com/watch?v=" +:+ id +:+ rest
  ∨ url = "https://youtu.be/" +:+ id +:+ rest →
  ProjectDetail.isYouTubeUrl url = true
  ∧ ProjectDetail.getYouTubeEmbedUrl url = Some embed
  ∧ ProjectDetail.render_slide (ProjectDetail.toSlide img) currentSlide
    = match img with
      | ImageObj (ImageObject.mk _ _ (Some (String c t))) =>
          if bool_decide (String c t = "youtube")
          then ProjectDetail.Iframe embed (caption "YouTube video ")
          else ProjectDetail.Img url (caption "Slide ")
      | _ => ProjectDetail.Iframe embed (caption "YouTube video ")
      end.
Proof.
  intros url embed caption Hid Hurl.
  assert (ProjectDetail.take_id 11 (id +:+ rest) = Some id) as Ht
    by (apply take_video_id; split; [done | by exists rest]).
  assert (ProjectDetail.match_id url = Some id) as Hm.
  { destruct Hurl as [-> | ->].
    - change ("https://www.youtube.com/watch?v=" +:+ id +:+ rest)
        with ("https://www.youtube.com/watch?" +:+ "v=" +:+ id +:+ rest).
      repeat (rewrite append_cons, match_id_skip by reflexivity).
      rewrite append_nil_l.
      destruct (("v=" +:+ id +:+ rest)) eqn:E; [discriminate E|].
      rewrite <- E. clear E.
      assert (ProjectDetail.match_id_here ("v=" +:+ id +:+ rest) = Some id)
        as Hh.
      { unfold ProjectDetail.match_id_here.
        replace (ProjectDetail.after_prefix "v=" ("v=" +:+ id +:+ rest))
          with (Some (id +:+ rest))
          by (symmetry; by apply after_prefix_append).
        simpl. by rewrite Ht. }
      change ("v=" +:+ id +:+ rest)
        with (String "v" (String "=" (id +:+ rest))) in *.
      cbn [ProjectDetail.match_id]. by rewrite Hh.
    - change ("https://youtu.be/" +:+ id +:+ rest)
        with ("https://" +:+ "youtu.be/" +:+ id +:+ rest).
      repeat (rewrite append_cons, match_id_skip by reflexivity).
      rewrite append_nil_l.
      assert (ProjectDetail.match_id_here ("youtu.be/" +:+ id +:+ rest)
              = Some id) as Hh.
      { unfold ProjectDetail.match_id_here.
        replace (ProjectDetail.after_prefix "youtu.be/"
                   ("youtu.be/" +:+ id +:+ rest))
          with (Some (id +:+ rest))
          by (symmetry; by apply after_prefix_append).
        change (ProjectDetail.after_prefix "v=" ("youtu.be/" +:+ id +:+ rest))
          with (@None string).
        simpl. by rewrite Ht. }
      change ("youtu.be/" +:+ id +:+ rest)
        with (String "y" ("outu.be/" +:+ id +:+ rest)) in *.
      cbn [ProjectDetail.match_id]. by rewrite Hh. }
  assert (ProjectDetail.getYouTubeEmbedUrl url = Some embed) as He
    by (unfold ProjectDetail.getYouTubeEmbedUrl; by rewrite Hm).
  assert (ProjectDetail.isYouTubeUrl url = true) as Hy.
  { unfold ProjectDetail.isYouTubeUrl.
    rewrite orb_true_iff, !contains_append.
    destruct Hurl as [-> | ->]; [left | right].
    - exists "https://www.", (ProjectDetail.string_lower (id +:+ rest)).
      change ("https://www.youtube.com/watch?v=" +:+ id +:+ rest)
        with ("https://www." +:+ "youtube.com/watch?v=" +:+ id +:+ rest).
      by rewrite !string_lower_append.
    - exists "https://", (ProjectDetail.string_lower (id +:+ rest)).
      change ("https://youtu.be/" +:+ id +:+ rest)
        with ("https://" +:+ "youtu.be/" +:+ id +:+ rest).
      by rewrite !string_lower_append. }
  split; [done|]. split; [done|].
  unfold ProjectDetail.render_slide, ProjectDetail.toSlide.
  subst caption. unfold url in *. clear url.
  destruct img as [u | [u a tag]]; simpl in Hy, He |- *.
  - rewrite Hy. simpl. by rewrite He.
  - destruct tag as [[|c t]|]; simpl; rewrite ?Hy;
      try case_bool_decide; rewrite ?bool_decide_eq_true_2 by done;
      rewrite ?He; by destruct a as [[|? ?]|].
Qed.

(** A watch address given as a plain string, a short link given as an object
    with a caption, and the same object tagged as an image. *)
Lemma watch_and_short_links_render_as_embeds_witness :
  ProjectDetail.render_slide
    (ProjectDetail.toSlide
       (ImageUrl "https://www.youtube.com/watch?v=dQw4w9WgXcQ&t=42s")) 0
  = ProjectDetail.Iframe "https://www.youtube.com/embed/dQw4w9WgXcQ"
      "YouTube video 1"
  ∧ ProjectDetail.render_slide
      (ProjectDetail.toSlide
         (ImageObj (ImageObject.mk "https://youtu.be/dQw4w9WgXcQ"
                      (Some "Showreel") None))) 0
    = ProjectDetail.Iframe "https://www.youtube.com/embed/dQw4w9WgXcQ"
        "Showreel"
  ∧ ProjectDetail.render_slide
      (ProjectDetail.toSlide
         (ImageObj (ImageObject.mk "https://youtu.be/dQw4w9WgXcQ"
                      (Some "Showreel") (Some "image")))) 0
    = ProjectDetail.Img "https://youtu.be/dQw4w9WgXcQ" "Showreel".
Proof.
  assert (ProjectDetail.is_video_id "dQw4w9WgXcQ" = true) as H
    by reflexivity.
  split; [|split].
  - exact (proj2 (proj2
      (watch_and_short_links_render_as_embeds "dQw4w9WgXcQ" "&t=42s" 0
         (ImageUrl "https://www.youtube.com/watch?v=dQw4w9WgXcQ&t=42s") H
         (or_introl eq_refl)))).
  - exact (proj2 (proj2
      (watch_and_short_links_render_as_embeds "dQw4w9WgXcQ" "" 0
         (ImageObj (ImageObject.mk "https://youtu.be/dQw4w9WgXcQ"
                      (Some "Showreel") None)) H (or_intror eq_refl)))).
  - exact (proj2 (proj2
      (watch_and_short_links_render_as_embeds "dQw4w9WgXcQ" "" 0
         (ImageObj (ImageObject.mk "https://youtu.be/dQw4w9WgXcQ"
                      (Some "Showreel") (Some "image"))) H
         (or_intror eq_refl)))).
Defined.

(** ** Touch gestures and the slide shown *)

(** X11.  What a touch sequence does to the gallery depends on its own points
    only, not on the state an earlier gesture left: the calls it makes are
    the same from any state; the slide index afterwards is the one before,
    advanced or moved back once according to the call made; and a sequence
    that navigated leaves no touch in progress. *)
Theorem touch_sequence_outcome (project : Project.t)
    (start : ProjectDetail.Touch) (moves : list ProjectDetail.Touch)
    (release : ProjectDetail.Touch) (s : ProjectDetail.State) :
  let N := array_length (ProjectDetail.slides project) in
  let after := ProjectDetail.touch_sequence project start moves release s in
  (∀ s0, (ProjectDetail.touch_sequence project start moves release s0).2
         = after.2)
  ∧ ProjectDetail.currentSlide after.1
    = match after.2 with
      | [ProjectDetail.CallNextSlide] =>
          ProjectDetail.next_index N (ProjectDetail.currentSlide s)
      | [ProjectDetail.CallPrevSlide] =>
          ProjectDetail.prev_index N (ProjectDetail.currentSlide s)
      | _ => ProjectDetail.currentSlide s
      end
  ∧ (after.2 ≠ [] →
     ProjectDetail.touchStartX after.1 = None
     ∧ ProjectDetail.touchStartY after.1 = None
     ∧ ProjectDetail.isSwiping after.1 = false)
  ∧ (0 ≤ ProjectDetail.currentSlide s < N →
     0 ≤ ProjectDetail.currentSlide after.1 < N).
Proof.
  intros N after.
  split; [intros s0; subst after; by rewrite !touch_sequence_calls|].
  subst after. unfold ProjectDetail.touch_sequence.
  destruct (touch_moves_state start moves
              (ProjectDetail.handleTouchStart start s) eq_refl eq_refl)
    as (HX & HY & HC & HS).
  set (s2 := foldl (λ s m, ProjectDetail.handleTouchMove m s)
               (ProjectDetail.handleTouchStart start s) moves) in *.
  simpl in HC.
  split; [|split].
  - unfold ProjectDetail.handleTouchEnd. rewrite HX, HY.
    destruct (ProjectDetail.isSwiping s2); [|simpl; by rewrite HC].
    destruct (_ && _); [|simpl; by rewrite HC].
    destruct (_ <? 0); simpl; by rewrite HC.
  - unfold ProjectDetail.handleTouchEnd. rewrite HX, HY.
    destruct (ProjectDetail.isSwiping s2); [|done].
    destruct (_ && _); [|done].
    by destruct (_ <? 0).
  - intros Hr. apply handleTouchEnd_in_range. by rewrite HC.
Qed.

Lemma touch_sequence_outcome_witness :
  ProjectDetail.currentSlide
    (ProjectDetail.touch_sequence Sample.poster
       (ProjectDetail.mkTouch 200 100) [ProjectDetail.mkTouch 150 102]
       (ProjectDetail.mkTouch 100 105) ProjectDetail.initial).1 = 1.
Proof.
  destruct (touch_sequence_outcome Sample.poster
              (ProjectDetail.mkTouch 200 100) [ProjectDetail.mkTouch 150 102]
              (ProjectDetail.mkTouch 100 105) ProjectDetail.initial)
    as (_ & -> & _).
  reflexivity.
Defined.

(** ** Editing projects *)

Lemma with_projects_same (d : SiteContent.t) :
  AdminControl.with_projects (SiteContent.projects d) d = d.
Proof. by destruct d. Qed.

Lemma filter_all {A : Type} (P : A → Prop) `{!∀ x, Decision (P x)}
    (l : list A) :
  (∀ x, x ∈ l → P x) → filter P l = l.
Proof.
  induction l as [|x l IH]; intros Hall; [done|].
  rewrite filter_cons_True by (apply Hall; by left).
  f_equal. apply IH. intros y Hy. apply Hall. by right.
Qed.

Lemma with_projects_twice (l1 l2 : list Project.t) (d : SiteContent.t) :
  AdminControl.with_projects l1 (AdminControl.with_projects l2 d)
  = AdminControl.with_projects l1 d.
Proof. done. Qed.

(** X12.  [updateProject] keeps the number and order of the projects.  A
    project that does not carry the identifier stays as it is.  In every
    project that carries it, the named field has the given value and each
    other field the value it had.  The logos, the exhibitions and the contact
    address of the draft stay as they are, and when no project carries the
    identifier the stored draft is the draft given. *)
Theorem updateProject_changes_matching_entries_only (id : string)
    (f : AdminControl.ProjectField) (d : SiteContent.t) :
  let d' := AdminControl.updateProject id f d in
  length (SiteContent.projects d') = length (SiteContent.projects d)
  ∧ (∀ (k : nat) p, SiteContent.projects d !! k = Some p →
       Project.id p ≠ id → SiteContent.projects d' !! k = Some p)
  ∧ (∀ (k : nat) p, SiteContent.projects d !! k = Some p →
       Project.id p = id →
       ∃ p', SiteContent.projects d' !! k = Some p'
         ∧ Project.id p'
           = match f with
             | AdminControl.field_id v => v | _ => Project.id p end
         ∧ Project.title p'
           = match f with
             | AdminControl.field_title v => v | _ => Project.title p end
         ∧ Project.category p'
           = match f with
             | AdminControl.field_category v => v
             | _ => Project.category p end
         ∧ Project.thumbnail p'
           = match f with
             | AdminControl.field_thumbnail v => v
             | _ => Project.thumbnail p end
         ∧ Project.description p'
           = match f with
             | AdminControl.field_description v => v
             | _ => Project.description p end
         ∧ Project.images p'
           = match f with
             | AdminControl.field_images v => v | _ => Project.images p end
         ∧ Project.year p'
           = match f with
             | AdminControl.field_year v => v | _ => Project.year p end
         ∧ Project.client p'
           = match f with
             | AdminControl.field_client v => v | _ => Project.client p end)
  ∧ SiteContent.logoUrl d' = SiteContent.logoUrl d
  ∧ SiteContent.heroLogoUrl d' = SiteContent.heroLogoUrl d
  ∧ SiteContent.exhibitions d' = SiteContent.exhibitions d
  ∧ SiteContent.contactEmail d' = SiteContent.contactEmail d
  ∧ (id ∉ AdminControl.project_ids d → d' = d).
Proof.
  intros d'. subst d'. unfold AdminControl.updateProject. simpl.
  split; [by rewrite length_fmap|].
  split.
  { intros k p Hk Hne. rewrite list_lookup_fmap, Hk. simpl.
    by rewrite bool_decide_eq_false_2. }
  split.
  { intros k p Hk He. rewrite list_lookup_fmap, Hk. simpl.
    rewrite bool_decide_eq_true_2 by done.
    eexists. split; [reflexivity|]. by destruct p, f. }
  do 4 (split; [done|]).
  intros Habs.
  assert ((λ p, if bool_decide (Project.id p = id)
                then AdminControl.set_project_field f p else p)
            <$> SiteContent.projects d = SiteContent.projects d) as ->;
    [|apply with_projects_same].
  transitivity (Datatypes.id <$> SiteContent.projects d);
    [|apply list_fmap_id].
  apply list_fmap_ext. intros k p Hk. simpl.
  case_bool_decide as E; [|done].
  exfalso. apply Habs. unfold AdminControl.project_ids.
  apply list_elem_of_fmap. exists p. split; [done|].
  eapply list_elem_of_lookup_2; eauto.
Qed.

(** Renaming the poster on its card: the title is the new one, the images
    are the old ones, and the flyer is as it was. *)
Lemma updateProject_changes_matching_entries_only_witness :
  let d' := AdminControl.updateProject "1" (AdminControl.field_title "Renamed")
              Sample.gallery_content in
  (∃ p', SiteContent.projects d' !! 0%nat = Some p'
         ∧ Project.title p' = "Renamed"
         ∧ Project.images p' = Project.images Sample.poster)
  ∧ SiteContent.projects d' !! 1%nat = Some Sample.flyer.
Proof.
  intros d'.
  destruct (updateProject_changes_matching_entries_only "1"
              (AdminControl.field_title "Renamed") Sample.gallery_content)
    as (_ & Hother & Hmatch & _).
  split.
  - destruct (Hmatch 0%nat Sample.poster eq_refl eq_refl)
      as (p' & Hp' & _ & Htitle & _ & _ & _ & Himages & _).
    exists p'. split; [exact Hp'|]. split; [exact Htitle | exact Himages].
  - apply (Hother 1%nat Sample.flyer eq_refl). discriminate.
Defined.

(** X13.  A declined confirmation leaves the draft alone.  A confirmed delete
    stores a draft without any project of that identifier, the other
    projects in their order and the rest of the draft as before; deleting
    the same identifier again changes nothing more; and when no project
    carries the identifier the stored draft is the one given. *)
Theorem deleteProject_removes_the_identifier (id : string)
    (d : SiteContent.t) :
  AdminControl.deleteProject false id d = AdminControl.NoCall
  ∧ (∃ d', AdminControl.deleteProject true id d
             = AdminControl.SetDraftContent d'
       ∧ (id ∉ AdminControl.project_ids d')
       ∧ (SiteContent.projects d' `sublist_of` SiteContent.projects d)
       ∧ (∀ p, p ∈ SiteContent.projects d → Project.id p ≠ id →
               p ∈ SiteContent.projects d')
       ∧ d' = AdminControl.with_projects (SiteContent.projects d') d
       ∧ AdminControl.deleteProject true id d'
         = AdminControl.SetDraftContent d'
       ∧ (id ∉ AdminControl.project_ids d → d' = d)).
Proof.
  split; [done|]. eexists. split; [reflexivity|]. simpl.
  split.
  { unfold AdminControl.project_ids. simpl. intros Hin.
    apply list_elem_of_fmap in Hin as (p & Hid & Hp).
    apply list_elem_of_filter in Hp as [Hne _]. done. }
  split; [apply sublist_filter|].
  split; [intros p Hp Hne; by apply list_elem_of_filter|].
  split; [done|].
  split.
  { unfold AdminControl.deleteProject. simpl.
    by rewrite list_filter_filter_l. }
  intros Habs.
  assert (filter (λ p, Project.id p ≠ id) (SiteContent.projects d)
          = SiteContent.projects d) as ->; [|apply with_projects_same].
  apply filter_all. intros p Hp Hid. apply Habs.
  apply list_elem_of_fmap. eauto.
Qed.

(** X14.  Adding a project and deleting the new card again removes every project
    that carries the new identifier: the draft is back to what it was when
    the identifier was fresh, and it has lost the older projects with that
    identifier when it was not. *)
Theorem add_then_delete_project (now fullYear : Z) (d : SiteContent.t) :
  let fresh_id := pretty now in
  let added := AdminControl.addProject now fullYear d in
  AdminControl.edit (AdminControl.ClickDeleteProject 0 true) added
    = AdminControl.deleteProject true fresh_id added
  ∧ AdminControl.deleteProject true fresh_id added
    = AdminControl.SetDraftContent
        (AdminControl.with_projects
           (filter (λ p, Project.id p ≠ fresh_id) (SiteContent.projects d)) d)
  ∧ (fresh_id ∉ AdminControl.project_ids d →
     AdminControl.deleteProject true fresh_id added
     = AdminControl.SetDraftContent d)
  ∧ (fresh_id ∈ AdminControl.project_ids d →
     (length (filter (λ p, Project.id p ≠ fresh_id) (SiteContent.projects d))
      < length (SiteContent.projects d))%nat).
Proof.
  intros fresh_id added. split; [done|].
  assert (AdminControl.deleteProject true fresh_id added
          = AdminControl.SetDraftContent
              (AdminControl.with_projects
                 (filter (λ p, Project.id p ≠ fresh_id)
                    (SiteContent.projects d)) d)) as Hdel.
  { unfold AdminControl.deleteProject, added, AdminControl.addProject.
    simpl. rewrite filter_cons_False; [done|]. simpl.
    intros Hne. by apply Hne. }
  split; [done|]. split.
  - intros Hfresh. rewrite Hdel. f_equal.
    assert (filter (λ p, Project.id p ≠ fresh_id) (SiteContent.projects d)
            = SiteContent.projects d) as ->; [|apply with_projects_same].
    apply filter_all. intros p Hp Hid. apply Hfresh.
    apply list_elem_of_fmap. eauto.
  - intros Hin. apply list_elem_of_fmap in Hin as (p & Hid & Hp).
    clear Hdel. induction (SiteContent.projects d) as [|q l IH];
      [inversion Hp|].
    apply elem_of_cons in Hp as [<- | Hp].
    + rewrite filter_cons_False by (intros Hne; by apply Hne).
      pose proof (length_filter (λ p, Project.id p ≠ fresh_id) l).
      simpl. lia.
    + specialize (IH Hp). rewrite filter_cons. simpl.
      case_decide; simpl; lia.
Qed.

Lemma add_then_delete_project_witness :
  AdminControl.deleteProject true "1700000000000"
    (AdminControl.addProject 1700000000000 2023 Sample.gallery_content)
  = AdminControl.SetDraftContent Sample.gallery_content.
Proof.
  apply (add_then_delete_project 1700000000000 2023 Sample.gallery_content).
  vm_compute. intros Hin.
  apply elem_of_cons in Hin as [Hin | Hin]; [discriminate Hin|].
  apply list_elem_of_singleton in Hin. discriminate Hin.
Defined.

Lemma exchange_back {A : Type} (l : list A) (i t : nat) (a b : A) :
  l !! i = Some a → l !! t = Some b →
  <[i := a]> (<[t := b]> (<[t := a]> (<[i := b]> l))) = l.
Proof.
  intros Ha Hb.
  pose proof (lookup_lt_Some _ _ _ Ha). pose proof (lookup_lt_Some _ _ _ Hb).
  apply list_eq. intros k.
  destruct (decide (k = i)) as [->|Hki].
  - rewrite list_lookup_insert_eq by (by rewrite !length_insert). done.
  - rewrite list_lookup_insert_ne by done.
    destruct (decide (k = t)) as [->|Hkt].
    + rewrite list_lookup_insert_eq by (by rewrite !length_insert). done.
    + by rewrite !list_lookup_insert_ne by done.
Qed.

(** X15.  Moving a project up and then moving it (now one place higher) down
    stores the original draft again, and likewise down then up. *)
Theorem move_there_and_back (d d' : SiteContent.t) (i : Z)
    (direction : AdminControl.MoveDirection) :
  0 ≤ i < array_length (SiteContent.projects d) →
  AdminControl.moveProject i direction d = AdminControl.SetDraftContent d' →
  match direction with
  | AdminControl.up =>
      AdminControl.moveProject (i - 1) AdminControl.down d'
  | AdminControl.down =>
      AdminControl.moveProject (i + 1) AdminControl.up d'
  end = AdminControl.SetDraftContent d.
Proof.
  intros Hi Hmove.
  set (t := match direction with
            | AdminControl.up => i - 1
            | AdminControl.down => i + 1
            end).
  assert (0 ≤ t < array_length (SiteContent.projects d) ∧ t ≠ i) as [Ht Hti].
  { unfold AdminControl.moveProject in Hmove. subst t.
    destruct direction.
    - destruct (Z.eqb_spec i 0); [done | lia].
    - destruct (Z.eqb_spec i (array_length (SiteContent.projects d) - 1));
        [done | lia]. }
  destruct (array_get_in_range _ i Hi) as [a Ha].
  destruct (array_get_in_range _ t Ht) as [b Hb].
  rewrite (moveProject_exchange d i t a b direction eq_refl Ha Hb) in Hmove.
  injection Hmove as <-.
  apply array_get_Some in Ha as [_ Ha]. apply array_get_Some in Hb as [_ Hb].
  pose proof (lookup_lt_Some _ _ _ Ha). pose proof (lookup_lt_Some _ _ _ Hb).
  set (ps' := <[Z.to_nat t := a]> (<[Z.to_nat i := b]> (SiteContent.projects d))).
  assert (array_get ps' t = Some a) as Ha'.
  { apply array_get_Some. split; [lia|]. subst ps'.
    apply list_lookup_insert_eq. by rewrite length_insert. }
  assert (array_get ps' i = Some b) as Hb'.
  { apply array_get_Some. split; [lia|]. subst ps'.
    rewrite list_lookup_insert_ne by lia. by apply list_lookup_insert_eq. }
  assert (AdminControl.moveProject t
            match direction with
            | AdminControl.up => AdminControl.down
            | AdminControl.down => AdminControl.up
            end (AdminControl.with_projects ps' d)
          = AdminControl.SetDraftContent d) as Hback.
  { rewrite (moveProject_exchange _ t i a b); simpl; try done.
    - rewrite with_projects_twice. subst ps'.
      rewrite exchange_back by done. by rewrite with_projects_same.
    - subst t. destruct direction; lia. }
  subst t. by destruct direction.
Qed.

Lemma move_there_and_back_witness :
  AdminControl.moveProject 0 AdminControl.up
    (SiteContent.mk None None [Sample.flyer; Sample.poster] []
       "studio@example.org")
  = AdminControl.NoCall
  ∧ AdminControl.moveProject 1 AdminControl.up
      (SiteContent.mk None None [Sample.flyer; Sample.poster] []
         "studio@example.org")
    = AdminControl.SetDraftContent Sample.gallery_content.
Proof.
  split; [reflexivity|].
  assert (0 ≤ 0 < array_length (SiteContent.projects Sample.gallery_content))
    as H by (vm_compute; split; congruence).
  exact (move_there_and_back Sample.gallery_content _ 0 AdminControl.down H
           eq_refl).
Defined.

(** X16.  The handlers of the controls the panel renders never let a [TypeError]
    escape and never store a project list with [undefined] slots. *)
Theorem rendered_controls_never_throw (ev : AdminControl.Event)
    (d : SiteContent.t) :
  (∀ message, AdminControl.edit ev d ≠ AdminControl.Raised message)
  ∧ (∀ slots, AdminControl.edit ev d ≠ AdminControl.SetUndefinedSlots slots).
Proof.
  destruct (edit_stores_or_returns ev d) as [E | [d' E]]; rewrite E;
    split; intros; discriminate.
Qed.

(** ** Loading the content *)







(** ** Exhibitions, newest first *)

Lemma insert_by_Permutation {A : Type} (cmp : A → A → Z) (x : A)
    (l : list A) :
  App.insert_by cmp x l ≡ₚ x :: l.
Proof.
  induction l as [|y l IH]; simpl; [done|].
  destruct (cmp x y <=? 0); [done|].
  rewrite IH. apply Permutation_swap.
Qed.

Lemma stable_sort_Permutation {A : Type} (cmp : A → A → Z) (l : list A) :
  App.stable_sort cmp l ≡ₚ l.
Proof.
  induction l as [|x l IH]; simpl; [done|].
  unfold App.stable_sort in *. simpl.
  by rewrite insert_by_Permutation, IH.
Qed.

Section SortedExhibitions.

Variable getTime : string → option Z.

#[local] Abbreviation time_of := (λ e : Exhibition.t, getTime (Exhibition.date e)).
#[local] Abbreviation cmp := (App.sort_compare getTime).
#[local] Abbreviation R := (App.not_older getTime).

Lemma sort_compare_read (a b : Exhibition.t) (ta tb : Z) :
  time_of a = Some ta → time_of b = Some tb → cmp a b = tb - ta.
Proof.
  intros Ha Hb. unfold App.sort_compare, App.compare_dates.
  by rewrite Ha, Hb.
Qed.

Lemma insert_by_sorted (x : Exhibition.t) (l : list Exhibition.t) :
  is_Some (time_of x) → Forall (λ e, is_Some (time_of e)) l →
  StronglySorted R l → StronglySorted R (App.insert_by cmp x l).
Proof.
  intros [tx Hx] Hall Hs.
  induction Hs as [|y l Hs IH Hy]; simpl.
  { repeat constructor. }
  apply Forall_cons in Hall as [[ty Hty] Hall].
  rewrite (sort_compare_read x y tx ty Hx Hty).
  destruct (Z.leb_spec (ty - tx) 0) as [Hle | Hgt].
  - apply StronglySorted_cons. split; [|by constructor].
    apply Forall_cons. split.
    + exists tx, ty. repeat split; [done..|lia].
    + eapply Forall_impl; [exact Hy|].
      intros z (ty' & tz & Hty' & Htz & Hle').
      exists tx, tz. rewrite Hty in Hty'. injection Hty' as <-.
      repeat split; [done..|lia].
  - apply StronglySorted_cons. split; [|by apply IH].
    rewrite insert_by_Permutation. apply Forall_cons. split; [|done].
    exists ty, tx. repeat split; [done..|lia].
Qed.

Lemma insert_by_same_time (t : Z) (x : Exhibition.t)
    (l : list Exhibition.t) :
  is_Some (time_of x) → Forall (λ e, is_Some (time_of e)) l →
  filter (λ e, time_of e = Some t) (App.insert_by cmp x l)
  = filter (λ e, time_of e = Some t) (x :: l).
Proof.
  intros [tx Hx] Hall.
  induction l as [|y l IH]; simpl; [done|].
  apply Forall_cons in Hall as [[ty Hty] Hall].
  rewrite (sort_compare_read x y tx ty Hx Hty).
  destruct (Z.leb_spec (ty - tx) 0) as [Hle | Hgt]; [done|].
  rewrite (filter_cons _ y), (IH Hall), (filter_cons _ x), (filter_cons _ x),
    (filter_cons _ y).
  destruct (decide (time_of y = Some t)) as [Ey|Ey]; [|done].
  destruct (decide (time_of x = Some t)) as [Ex|Ex]; [|done].
  rewrite Hty in Ey. rewrite Hx in Ex. simplify_eq. lia.
Qed.

Lemma stable_sort_sorted (l : list Exhibition.t) :
  Forall (λ e, is_Some (time_of e)) l →
  StronglySorted R (App.stable_sort cmp l)
  ∧ ∀ t, filter (λ e, time_of e = Some t) (App.stable_sort cmp l)
         = filter (λ e, time_of e = Some t) l.
Proof.
  induction l as [|x l IH]; intros Hall.
  { split; [constructor|done]. }
  apply Forall_cons in Hall as [Hx Hall].
  destruct (IH Hall) as [Hs Hf].
  assert (Forall (λ e, is_Some (time_of e)) (App.stable_sort cmp l)) as Hall'.
  { by rewrite stable_sort_Permutation. }
  unfold App.stable_sort in *. simpl. split.
  - by apply insert_by_sorted.
  - intros t. rewrite insert_by_same_time by done.
    by rewrite !(filter_cons _ x), Hf.
Qed.

End SortedExhibitions.

Lemma StronglySorted_lookup {A : Type} (R : relation A) (l : list A)
    (i j : nat) (a b : A) :
  StronglySorted R l → (i < j)%nat → l !! i = Some a → l !! j = Some b →
  R a b.
Proof.
  intros Hs. revert i j. induction Hs as [|x l Hs IH Hx]; intros i j Hij Hi Hj.
  { done. }
  destruct j as [|j]; [lia|]. simpl in Hj.
  destruct i as [|i]; simpl in Hi.
  - injection Hi as <-. rewrite Forall_forall in Hx. apply Hx.
    by eapply list_elem_of_lookup_2.
  - apply (IH i j); [lia|done..].
Qed.

(** X18.  When the date of every exhibition can be read, the exhibitions section
    shows each exhibition of the content exactly once, an exhibition never
    below an older one, and exhibitions of one date in the order the content
    lists them. *)
Theorem sortedExhibitions_newest_first (getTime : string → option Z)
    (c : SiteContent.t) :
  (∀ e, e ∈ SiteContent.exhibitions c →
        is_Some (getTime (Exhibition.date e))) →
  let shown := App.sortedExhibitions_of getTime (Some c) in
  shown ≡ₚ SiteContent.exhibitions c
  ∧ (∀ (i j : nat) a b, (i < j)%nat →
       shown !! i = Some a → shown !! j = Some b →
       App.not_older getTime a b)
  ∧ (∀ t, filter (λ e, getTime (Exhibition.date e) = Some t) shown
          = filter (λ e, getTime (Exhibition.date e) = Some t)
              (SiteContent.exhibitions c)).
Proof.
  intros Hall shown. subst shown. simpl.
  apply Forall_forall in Hall.
  destruct (stable_sort_sorted getTime _ Hall) as [Hs Hf].
  split; [apply stable_sort_Permutation|].
  split; [|done].
  intros i j a b. by apply StronglySorted_lookup.
Qed.

Lemma sortedExhibitions_newest_first_witness :
  App.sortedExhibitions_of Sample.getTime (Some Sample.exhibition_content)
  = [Sample.open_studio; Sample.book_fair; Sample.spring_show]
  ∧ App.not_older Sample.getTime Sample.open_studio Sample.spring_show.
Proof.
  split; [reflexivity|].
  assert (∀ e, e ∈ SiteContent.exhibitions Sample.exhibition_content →
               is_Some (Sample.getTime (Exhibition.date e))) as Hall.
  { intros e He. simpl in He.
    repeat (apply elem_of_cons in He as [-> | He]; [by eexists|]).
    inversion He. }
  destruct (sortedExhibitions_newest_first Sample.getTime
              Sample.exhibition_content Hall) as (_ & Hord & _).
  exact (Hord 0%nat 2%nat _ _ ltac:(lia) eq_refl eq_refl).
Defined.

(** X19.  When the dates of the exhibitions can all be read and no two fall on the
    same time, the order in which the content lists the exhibitions does not
    matter: two contents with the same exhibitions show them in the same
    order. *)
Theorem exhibition_order_in_content_is_irrelevant
    (getTime : string → option Z) (c1 c2 : SiteContent.t) :
  (∀ e, e ∈ SiteContent.exhibitions c1 →
        is_Some (getTime (Exhibition.date e))) →
  NoDup ((λ e, getTime (Exhibition.date e)) <$> SiteContent.exhibitions c1) →
  SiteContent.exhibitions c1 ≡ₚ SiteContent.exhibitions c2 →
  App.sortedExhibitions_of getTime (Some c1)
  = App.sortedExhibitions_of getTime (Some c2).
Proof.
  intros Hall Hnd Hperm. simpl.
  assert (Forall (λ e, is_Some (getTime (Exhibition.date e)))
            (SiteContent.exhibitions c1)) as Hall1 by by apply Forall_forall.
  assert (Forall (λ e, is_Some (getTime (Exhibition.date e)))
            (SiteContent.exhibitions c2)) as Hall2 by by rewrite <- Hperm.
  destruct (stable_sort_sorted getTime _ Hall1) as [Hs1 _].
  destruct (stable_sort_sorted getTime _ Hall2) as [Hs2 _].
  apply (StronglySorted_unique_strong (App.not_older getTime)); [|done..|].
  - intros x1 x2 Hx1 Hx2 (t1 & t2 & H1 & H2 & Hle) (t2' & t1' & H2' & H1' & Hle').
    rewrite stable_sort_Permutation in Hx1, Hx2. rewrite <- Hperm in Hx2.
    simplify_eq. assert (t1 = t2) as -> by lia.
    apply list_elem_of_lookup in Hx1 as [i Hi].
    apply list_elem_of_lookup in Hx2 as [j Hj].
    assert (i = j) as ->; [|congruence].
    eapply NoDup_lookup; [exact Hnd| |]; rewrite list_lookup_fmap.
    + by rewrite Hi.
    + rewrite Hj. simpl. congruence.
  - by rewrite !stable_sort_Permutation.
Qed.

Lemma exhibition_order_in_content_is_irrelevant_witness :
  App.sortedExhibitions_of Sample.getTime (Some Sample.exhibition_content)
  = App.sortedExhibitions_of Sample.getTime
      (Some (SiteContent.mk None None []
               [Sample.book_fair; Sample.spring_show; Sample.open_studio]
               "studio@example.org")).
Proof.
  apply (exhibition_order_in_content_is_irrelevant Sample.getTime
           Sample.exhibition_content).
  - intros e He. simpl in He.
    repeat (apply elem_of_cons in He as [-> | He]; [by eexists|]).
    inversion He.
  - vm_compute. repeat constructor; intros Hin;
      repeat (apply elem_of_cons in Hin as [Hin | Hin]; [discriminate Hin|]);
      inversion Hin.
  - exact (Permutation_app_comm [Sample.spring_show; Sample.open_studio]
             [Sample.book_fair]).
Defined.

(** ** The rich text editor *)

(** X20.  The editor shows its value when it is mounted, and its flag is clear.
    After an edit the editor holds the edited HTML and that HTML is the value,
    whatever the state before.  From a state whose flag is clear, an edit that
    changes the HTML and any change of the value from outside leave the
    editor showing the value with the flag clear again. *)
Theorem editor_shows_its_value (v : string) (s : RichTextEditor.State)
    (ev : RichTextEditor.Event) :
  let settled (s : RichTextEditor.State) :=
    RichTextEditor.in_sync s ∧ RichTextEditor.isInternalUpdate s = false in
  (settled (RichTextEditor.mount v)
   ∧ RichTextEditor.value (RichTextEditor.mount v) = v)
  ∧ (∀ html,
       RichTextEditor.in_sync (RichTextEditor.step s (RichTextEditor.Edited html))
       ∧ RichTextEditor.value (RichTextEditor.step s (RichTextEditor.Edited html))
         = html)
  ∧ (settled s →
     match ev with
     | RichTextEditor.Edited html => html ≠ RichTextEditor.value s
     | RichTextEditor.ValueChanged _ => True
     end →
     settled (RichTextEditor.step s ev)
     ∧ RichTextEditor.value (RichTextEditor.step s ev)
       = match ev with
         | RichTextEditor.Edited html => html
         | RichTextEditor.ValueChanged v' => v'
         end).
Proof.
  intros settled. subst settled. simpl.
  unfold RichTextEditor.in_sync, RichTextEditor.mount, RichTextEditor.step,
    RichTextEditor.rerender, RichTextEditor.sync. simpl.
  split.
  { split; [|done]. split; [|done]. by case_bool_decide. }
  split.
  { intros html. simpl. by case_bool_decide. }
  intros [Hsync Hflag] Hev. destruct ev as [html | v']; simpl.
  - by rewrite bool_decide_eq_false_2.
  - case_bool_decide as E; simpl; [by subst|].
    rewrite Hflag. simpl. by case_bool_decide.
Qed.

Lemma editor_shows_its_value_witness :
  RichTextEditor.innerHTML
    (RichTextEditor.step (RichTextEditor.mount "<p>old</p>")
       (RichTextEditor.ValueChanged "<p>imported</p>"))
  = "<p>imported</p>".
Proof.
  destruct (editor_shows_its_value "<p>old</p>"
              (RichTextEditor.mount "<p>old</p>")
              (RichTextEditor.ValueChanged "<p>imported</p>"))
    as (_ & _ & Hstep).
  destruct Hstep as [[Hsync _] Hvalue]; [by split|exact I|].
  unfold RichTextEditor.in_sync in Hsync. by rewrite Hsync, Hvalue.
Defined.

(** X21.  An edit that leaves the HTML equal to the value, such as a toolbar
    command that changes nothing, leaves the flag set: no effect runs to clear
    it.  The next change of the value from outside is then not written into
    the editor, which keeps showing the old HTML. *)
Theorem editor_misses_change_after_idle_command (s : RichTextEditor.State)
    (v : string) :
  v ≠ RichTextEditor.value s →
  let idle := RichTextEditor.step s
                (RichTextEditor.Edited (RichTextEditor.value s)) in
  let s' := RichTextEditor.step idle (RichTextEditor.ValueChanged v) in
  RichTextEditor.isInternalUpdate idle = true
  ∧ RichTextEditor.value s' = v
  ∧ RichTextEditor.innerHTML s' = RichTextEditor.value s
  ∧ ¬ RichTextEditor.in_sync s'
  ∧ RichTextEditor.isInternalUpdate s' = false.
Proof.
  intros Hv idle s'. subst idle s'.
  unfold RichTextEditor.in_sync, RichTextEditor.step,
    RichTextEditor.rerender, RichTextEditor.sync. simpl.
  rewrite bool_decide_eq_true_2 by done. simpl.
  rewrite bool_decide_eq_false_2 by done. simpl.
  repeat split; done.
Qed.

Lemma editor_misses_change_after_idle_command_witness :
  RichTextEditor.innerHTML
    (RichTextEditor.step
       (RichTextEditor.step (RichTextEditor.mount "<p>old</p>")
          (RichTextEditor.Edited "<p>old</p>"))
       (RichTextEditor.ValueChanged "<p>imported</p>"))
  = "<p>old</p>".
Proof.
  assert ("<p>imported</p>"
          ≠ RichTextEditor.value (RichTextEditor.mount "<p>old</p>")) as Hv.
  { intros E. discriminate E. }
  exact (proj1 (proj2 (proj2
    (editor_misses_change_after_idle_command
       (RichTextEditor.mount "<p>old</p>") "<p>imported</p>" Hv)))).
Defined.

(** ** Gallery images of a project card *)

Lemma updateProject_at (d : SiteContent.t) (k : nat) (p : Project.t)
    (f : AdminControl.ProjectField) :
  NoDup (AdminControl.project_ids d) →
  SiteContent.projects d !! k = Some p →
  AdminControl.updateProject (Project.id p) f d
  = AdminControl.with_projects
      (<[k := AdminControl.set_project_field f p]> (SiteContent.projects d)) d.
Proof.
  intros Hnd Hk. unfold AdminControl.updateProject. f_equal.
  apply list_eq. intros j. rewrite list_lookup_fmap.
  destruct (decide (j = k)) as [->|Hjk].
  - rewrite Hk, list_lookup_insert_eq by by eapply lookup_lt_Some.
    simpl. by rewrite bool_decide_eq_true_2.
  - rewrite list_lookup_insert_ne by done.
    destruct (SiteContent.projects d !! j) as [q|] eqn:Hj; [|done]. simpl.
    rewrite bool_decide_eq_false_2; [done|]. intros Hid. apply Hjk.
    eapply NoDup_lookup; [exact Hnd| |];
      unfold AdminControl.project_ids; rewrite list_lookup_fmap.
    + by rewrite Hj.
    + rewrite Hk. simpl. by rewrite Hid.
Qed.

(** X22.  In a draft whose project identifiers are pairwise distinct, typing in
    the address (resp. the alternative text) of image [idx] of the card at
    position [k] stores the draft in which that one image of that one project
    is an object with the typed address and the alternative text it had
    (resp. the address it had and the typed text), everything else as it was.
    The stored image carries no [type]: the gallery then takes the kind of
    the slide from the address alone. *)
Theorem image_inputs_change_one_image (d : SiteContent.t) (k idx : nat)
    (p : Project.t) (img : ProjectImage) (v : string) :
  NoDup (AdminControl.project_ids d) →
  SiteContent.projects d !! k = Some p →
  Project.images p !! idx = Some img →
  let stored (new : ProjectImage) :=
    AdminControl.SetDraftContent
      (AdminControl.with_projects
         (<[k := AdminControl.set_project_field
                   (AdminControl.field_images
                      (<[idx := new]> (Project.images p))) p]>
            (SiteContent.projects d)) d) in
  let by_address (u : string) : string :=
    if ProjectDetail.isYouTubeUrl u then "youtube" else "image" in
  let new_url :=
    ImageObj (ImageObject.mk v (AdminControl.image_alt img) None) in
  let new_alt :=
    ImageObj (ImageObject.mk (AdminControl.image_url img) (Some v) None) in
  AdminControl.edit (AdminControl.ChangeImageUrl k idx v) d = stored new_url
  ∧ AdminControl.edit (AdminControl.ChangeImageAlt k idx v) d = stored new_alt
  ∧ ProjectDetail.type (ProjectDetail.toSlide new_url) = by_address v
  ∧ ProjectDetail.type (ProjectDetail.toSlide new_alt)
    = by_address (AdminControl.image_url img).
Proof.
  intros Hnd Hk Hidx stored by_address new_url new_alt.
  subst stored by_address new_url new_alt. simpl.
  rewrite Hk, bool_decide_eq_true_2 by by rewrite Hidx.
  unfold AdminControl.changeImageUrl, AdminControl.changeImageAlt.
  rewrite Hidx. cbv zeta.
  by rewrite !(updateProject_at d k p) by done.
Qed.

Lemma image_inputs_change_one_image_witness :
  AdminControl.edit (AdminControl.ChangeImageAlt 0 1 "Back cover")
    Sample.gallery_content
  = AdminControl.SetDraftContent
      (SiteContent.mk None None
         [Project.mk "1" "Poster" "print" "t1.png" ""
            [ImageUrl "a.png";
             ImageObj (ImageObject.mk "b.png" (Some "Back cover") None);
             ImageUrl "c.png"] "2024" None;
          Sample.flyer] [] "studio@example.org").
Proof.
  assert (NoDup (AdminControl.project_ids Sample.gallery_content)) as Hnd.
  { vm_compute. repeat constructor; intros Hin;
      repeat (apply elem_of_cons in Hin as [Hin | Hin]; [discriminate Hin|]);
      inversion Hin. }
  exact (proj1 (proj2
    (image_inputs_change_one_image Sample.gallery_content 0 1 Sample.poster
       (ImageUrl "b.png") "Back cover" Hnd eq_refl eq_refl))).
Defined.

(** X23.  In a draft whose project identifiers are pairwise distinct, adding an
    image to a card and removing the new, last image of that card again
    stores the draft as it was. *)
Theorem add_then_remove_image (d : SiteContent.t) (k : nat) (p : Project.t) :
  NoDup (AdminControl.project_ids d) →
  SiteContent.projects d !! k = Some p →
  AdminControl.edit
    (AdminControl.ClickRemoveImage k (length (Project.images p)))
    (AdminControl.addImage p d)
  = AdminControl.SetDraftContent d.
Proof.
  intros Hnd Hk.
  pose proof (lookup_lt_Some _ _ _ Hk) as Hlt.
  unfold AdminControl.addImage.
  rewrite (updateProject_at d k p) by done.
  set (p' := AdminControl.set_project_field _ p).
  assert (Project.id p' = Project.id p) as Hid by by destruct p.
  assert (Project.images p'
          = Project.images p ++ [ImageObj (ImageObject.mk "" (Some "") None)])
    as Himg by by destruct p.
  simpl. rewrite list_lookup_insert_eq by done.
  rewrite bool_decide_eq_true_2.
  2:{ rewrite Himg, lookup_app_r, Nat.sub_diag by lia. by eexists. }
  unfold AdminControl.removeImage. f_equal.
  set (d' := AdminControl.with_projects _ d).
  assert (NoDup (AdminControl.project_ids d')) as Hnd'.
  { unfold AdminControl.project_ids, d'. simpl.
    rewrite list_fmap_insert, Hid, list_insert_id; [done|].
    rewrite list_lookup_fmap, Hk. done. }
  assert (SiteContent.projects d' !! k = Some p') as Hk'.
  { unfold d'. simpl. by apply list_lookup_insert_eq. }
  rewrite (updateProject_at d' k p') by done.
  unfold d'. simpl. rewrite list_insert_insert_eq.
  assert (AdminControl.set_project_field
            (AdminControl.field_images
               (delete (length (Project.images p)) (Project.images p'))) p'
          = p) as ->.
  { rewrite Himg.
    assert (delete (length (Project.images p))
              (Project.images p
               ++ [ImageObj (ImageObject.mk "" (Some "") None)])
            = Project.images p) as ->.
    { rewrite delete_middle. apply app_nil_r. }
    unfold p'. by destruct p. }
  rewrite list_insert_id by done. by destruct d.
Qed.

Lemma add_then_remove_image_witness :
  AdminControl.edit (AdminControl.ClickRemoveImage 0 3)
    (AdminControl.addImage Sample.poster Sample.gallery_content)
  = AdminControl.SetDraftContent Sample.gallery_content.
Proof.
  assert (NoDup (AdminControl.project_ids Sample.gallery_content)) as Hnd.
  { vm_compute. repeat constructor; intros Hin;
      repeat (apply elem_of_cons in Hin as [Hin | Hin]; [discriminate Hin|]);
      inversion Hin. }
  exact (add_then_remove_image Sample.gallery_content 0 Sample.poster Hnd
           eq_refl).
Defined.

(** ** Exhibitions in the panel *)

Lemma before_T_append (day rest : string) :
  Forall (λ c, c ≠ "T"%char) (list_ascii_of_string day) →
  AdminControl.before_T (day +:+ String "T" rest) = day.
Proof.
  induction day as [|c day IH]; intros Hday; [reflexivity|].
  simpl in Hday. apply Forall_cons in Hday as [Hc Hday].
  rewrite append_cons. simpl. rewrite (IH Hday).
  destruct c as [[] [] [] [] [] [] [] []]; done.
Qed.

(** X24.  A new exhibition is put in front of the others, with the clock reading
    as its identifier and, as its date, the part of the ISO timestamp before
    its first "T": the day, when the timestamp is a day, a "T" and a time.
    The other exhibitions and the rest of the draft stay as they were, and
    deleting the new card restores the draft when the identifier was not in
    use. *)
Theorem new_exhibition_is_dated_by_the_day (now : Z) (day rest : string)
    (d : SiteContent.t) :
  Forall (λ c, c ≠ "T"%char) (list_ascii_of_string day) →
  let d' := AdminControl.addExhibition now (day +:+ String "T" rest) d in
  SiteContent.exhibitions d'
  = Exhibition.mk (pretty now) "New Exhibition" day "Location" None
    :: SiteContent.exhibitions d
  ∧ d' = AdminControl.with_exhibitions (SiteContent.exhibitions d') d
  ∧ (pretty now ∉ AdminControl.exhibition_ids d →
     AdminControl.edit (AdminControl.ClickDeleteExhibition 0 true) d'
     = AdminControl.SetDraftContent d).
Proof.
  intros Hday d'. subst d'. unfold AdminControl.addExhibition.
  rewrite before_T_append by done. simpl.
  split; [done|]. split; [done|].
  intros Hfresh. unfold AdminControl.deleteExhibition. simpl. f_equal.
  rewrite filter_cons_False by (simpl; intros Hne; by apply Hne).
  rewrite filter_all; [by destruct d|].
  intros e He Hid. apply Hfresh. apply list_elem_of_fmap. eauto.
Qed.

Lemma new_exhibition_is_dated_by_the_day_witness :
  SiteContent.exhibitions
    (AdminControl.addExhibition 1710498030000 "2024-03-15T10:20:30.000Z"
       Sample.empty_content)
  = [Exhibition.mk "1710498030000" "New Exhibition" "2024-03-15" "Location"
       None].
Proof.
  assert (Forall (λ c, c ≠ "T"%char) (list_ascii_of_string "2024-03-15"))
    as Hday.
  { simpl. repeat constructor; intros E; discriminate E. }
  exact (proj1 (new_exhibition_is_dated_by_the_day 1710498030000
                  "2024-03-15" "10:20:30.000Z" Sample.empty_content Hday)).
Defined.

(** ** The closed panel *)

Section ClosedPanel.

Variable JSON_parse : string → Completion JSON.value.
Variable JSON_copy : JSON.value → JSON.value.
Variable unshaped_edit :
  AdminControl.Event → JSON.value → Dynamic.t.

#[local] Abbreviation step :=
  (AdminControl.step JSON_parse JSON_copy unshaped_edit).
#[local] Abbreviation run :=
  (AdminControl.run JSON_parse JSON_copy unshaped_edit).

Lemma closed_step (s : AdminControl.State) (ev : AdminControl.Event) :
  AdminControl.isOpen s = false → ev ≠ AdminControl.ClickOpen →
  AdminControl.isOpen (step s ev) = false
  ∧ AdminControl.content (step s ev) = AdminControl.content s
  ∧ AdminControl.activeTab (step s ev) = AdminControl.activeTab s.
Proof.
  intros Hclosed Hev.
  destruct ev; simpl; rewrite ?Hclosed; simpl; try done.
  unfold AdminControl.handleImport_onload.
  destruct result; [done|]. by destruct (JSON_parse _).
Qed.

(** X25.  While the panel is closed nothing reaches the site or survives the
    next opening: whatever events arrive before the Open button is pressed,
    among them a file read that completes late, the site's content, the
    closed state and the active tab stay as they are, and pressing Open sets
    the draft to the JSON copy of the site's content, whatever the draft
    held.  That copy is the site's content itself when the content has the
    declared shape; for a content of another shape it is what the
    platform's JSON round trip gives. *)
Theorem opening_starts_from_the_site_content (s : AdminControl.State)
    (evs : list AdminControl.Event) :
  AdminControl.isOpen s = false →
  AdminControl.ClickOpen ∉ evs →
  let before := run s evs in
  let s' := run s (evs ++ [AdminControl.ClickOpen]) in
  AdminControl.isOpen before = false
  ∧ AdminControl.content before = AdminControl.content s
  ∧ AdminControl.isOpen s' = true
  ∧ AdminControl.content s' = AdminControl.content s
  ∧ AdminControl.draftContent s'
    = match AdminControl.content s with
      | Dynamic.Shaped c => Dynamic.Shaped c
      | Dynamic.Unshaped j => Dynamic.of_JSON (JSON_copy j)
      end
  ∧ AdminControl.activeTab s' = AdminControl.activeTab s.
Proof.
  intros Hclosed Hevs before s'. subst before s'. unfold AdminControl.run.
  rewrite foldl_app. simpl.
  assert (AdminControl.isOpen (foldl step s evs) = false
          ∧ AdminControl.content (foldl step s evs) = AdminControl.content s
          ∧ AdminControl.activeTab (foldl step s evs)
            = AdminControl.activeTab s) as (Hc & Hcontent & Htab).
  { revert s Hclosed. induction evs as [|ev evs IH]; intros s Hclosed.
    { done. }
    apply not_elem_of_cons in Hevs as [Hev Hevs]. simpl.
    destruct (closed_step s ev Hclosed) as (Hc & Hcontent & Htab);
      [congruence|].
    destruct (IH Hevs _ Hc) as (Hc' & Hcontent' & Htab').
    by rewrite Hc', Hcontent', Htab', Hcontent, Htab. }
  split; [done|]. split; [done|].
  rewrite Hc. unfold AdminControl.handleOpen, AdminControl.deep_copy. simpl.
  by rewrite Hcontent, Htab.
Qed.

End ClosedPanel.

(** A late file read and a click that reaches nothing, then Open: the draft
    is the site's content.  And a content that is the number [1e400], with a
    copy that turns numbers into [null]: the draft is [null]. *)
Lemma opening_starts_from_the_site_content_witness :
  AdminControl.draftContent
    (AdminControl.run JSON.parse AdminControl.copies_unchanged
       AdminControl.throws_on_unshaped
       (AdminControl.closed_editor Sample.gallery_content)
       [AdminControl.FileLoaded Sample.minimal_file;
        AdminControl.ClickAddProject 1700000000000 2023;
        AdminControl.ClickOpen])
  = Dynamic.Shaped Sample.gallery_content
  ∧ AdminControl.draftContent
      (AdminControl.run JSON.parse AdminControl.number_to_null
         AdminControl.throws_on_unshaped
         (AdminControl.mkState (Dynamic.Unshaped (JSON.JNumber "1e400"))
            false AdminControl.tab_projects
            (Dynamic.Unshaped (JSON.JNumber "1e400")) [])
         [AdminControl.ClickOpen])
    = Dynamic.Unshaped JSON.JNull.
Proof.
  assert (AdminControl.ClickOpen
          ∉ [AdminControl.FileLoaded Sample.minimal_file;
             AdminControl.ClickAddProject 1700000000000 2023]) as Hevs.
  { intros Hin.
    repeat (apply elem_of_cons in Hin as [Hin | Hin]; [discriminate Hin|]).
    inversion Hin. }
  split.
  - exact (proj1 (proj2 (proj2 (proj2 (proj2
      (opening_starts_from_the_site_content JSON.parse
         AdminControl.copies_unchanged AdminControl.throws_on_unshaped
         (AdminControl.closed_editor Sample.gallery_content) _ eq_refl
         Hevs)))))).
  - exact (proj1 (proj2 (proj2 (proj2 (proj2
      (opening_starts_from_the_site_content JSON.parse
         AdminControl.number_to_null AdminControl.throws_on_unshaped
         (AdminControl.mkState (Dynamic.Unshaped (JSON.JNumber "1e400"))
            false AdminControl.tab_projects
            (Dynamic.Unshaped (JSON.JNumber "1e400")) [])
         [] eq_refl (not_elem_of_nil _))))))).
Defined.
